(** * nokari: the argument parser of [nokari/utils/parser.py]

    A shallow embedding of [ArgumentParser] and of its per-call session
    [_Parser], with the properties of the parser stated and proved (or
    refuted) on the embedding; and of the prefix resolver
    [Nokari._resolve_prefix] of [nokari/core/bot.py].

    Python strings are modelled as [string]; a character is a code point
    below 256 (Latin-1), on which [str.lower], [str.isspace] and [str.strip]
    are modelled exactly.  Python exceptions are modelled by the [Raise]
    constructor of [result]. *)

From Stdlib Require Import ZArith Ascii.
From stdpp Require Import base gmap strings list.

Local Open Scope Z_scope.

(** ** Exceptions *)

Inductive exn : Type :=
  | IndexError
  | KeyError
  | UnboundLocalError
  | AttributeError
  | UnexpectedQuoteError.

(** [Diverge] is the answer of a loop model whose fuel ran out; the loop of
    [parse] is shown never to give it. *)
Inductive result (A : Type) : Type :=
  | Ok (a : A)
  | Raise (e : exn)
  | Diverge.

Arguments Ok {A} a.
Arguments Raise {A} e.
Arguments Diverge {A}.

#[global] Instance result_ret : MRet result := fun A a => Ok a.

#[global] Instance result_bind : MBind result := fun A B k r =>
  match r with
  | Ok a => k a
  | Raise e => Raise e
  | Diverge => Diverge
  end.

(** ** String primitives of Python used by the parser *)

Module Py.

Definition dash : ascii := "-"%char.
Definition underscore : ascii := "_"%char.
Definition equals : ascii := "="%char.
Definition space : ascii := " "%char.
Definition dquote : ascii := "034"%char.

Definition str (c : ascii) : string := String c EmptyString.

(** [str.isspace] on one character. *)
Definition isspace (c : ascii) : bool :=
  let n := N_of_ascii c in
  ((9 <=? n) && (n <=? 13) || (28 <=? n) && (n <=? 32)
   || (n =? 133) || (n =? 160))%N.

(** [str.lower] on one character. *)
Definition lower_char (c : ascii) : ascii :=
  let n := N_of_ascii c in
  if ((65 <=? n) && (n <=? 90)
      || (192 <=? n) && (n <=? 222) && negb (n =? 215))%N
  then ascii_of_N (n + 32) else c.

Fixpoint lower (s : string) : string :=
  match s with
  | EmptyString => EmptyString
  | String c s' => String (lower_char c) (lower s')
  end.

(** [s.lstrip(c)] for a one-character [c]. *)
Fixpoint lstrip (c : ascii) (s : string) : string :=
  match s with
  | EmptyString => EmptyString
  | String a s' => if decide (a = c) then lstrip c s' else s
  end.

Fixpoint lstrip_ws (s : string) : string :=
  match s with
  | EmptyString => EmptyString
  | String a s' => if isspace a then lstrip_ws s' else s
  end.

(** [s.strip()]. *)
Definition strip (s : string) : string :=
  String.rev (lstrip_ws (String.rev (lstrip_ws s))).

(** [s[n]], raising [IndexError] out of range ([n] is never negative in
    the parser). *)
Definition index (s : string) (n : nat) : result ascii :=
  match String.get n s with
  | Some c => Ok c
  | None => Raise IndexError
  end.

(** [s.startswith(p)]. *)
Definition startswith (p s : string) : bool := String.prefix p s.

Fixpoint drop (n : nat) (s : string) : string :=
  match n, s with
  | O, _ => s
  | S _, EmptyString => EmptyString
  | S n', String _ s' => drop n' s'
  end.

Fixpoint take (n : nat) (s : string) : string :=
  match n, s with
  | O, _ => EmptyString
  | S _, EmptyString => EmptyString
  | S n', String c s' => String c (take n' s')
  end.

(** [s[i:j]] for [0 <= i], [0 <= j]. *)
Definition slice (i j : nat) (s : string) : string :=
  take (j - i) (drop i s).

(** [c in s] for a one-character [c]. *)
Fixpoint contains (c : ascii) (s : string) : bool :=
  match s with
  | EmptyString => false
  | String a s' => if decide (a = c) then true else contains c s'
  end.

(** [s.replace(old, new)] for a non-empty [old]: left to right, not
    overlapping.  [skip] counts the characters of a match still to be
    dropped. *)
Fixpoint replace_go (old new : string) (skip : nat) (s : string) : string :=
  match s with
  | EmptyString => EmptyString
  | String c s' =>
      match skip with
      | S k => replace_go old new k s'
      | O =>
          if String.prefix old s
          then new +:+ replace_go old new (String.length old - 1) s'
          else String c (replace_go old new 0 s')
      end
  end.

Definition replace (old new s : string) : string :=
  replace_go old new 0 s.

(** [s.split(sep)] for a one-character [sep]. *)
Fixpoint split (sep : ascii) (s : string) : list string :=
  match s with
  | EmptyString => [EmptyString]
  | String c s' =>
      if decide (c = sep) then EmptyString :: split sep s'
      else match split sep s' with
           | w :: ws => String c w :: ws
           | [] => [str c]
           end
  end.

(** [sep.join(l)]. *)
Definition join (sep : string) (l : list string) : string :=
  String.concat sep l.

(** [set(s)]: the one-character strings of [s]. *)
Definition set_of (s : string) : gset string :=
  list_to_set (map str (String.list_ascii_of_string s)).

(** Truthiness of a string: non-empty. *)
Definition nonempty (s : string) : bool :=
  match s with EmptyString => false | _ => true end.

End Py.

(** ** The tokenizer [StringView]

    [nokari/utils/view.py], which defines [StringView] and
    [UnexpectedQuoteError], is not among the sources.  The three operations
    the parser calls are modelled from section 6 of the specification; the
    quote character is the double quote, the one [parse] itself looks
    for. *)

(** Modelled from the spec: the view of [nokari/utils/view.py], a buffer
    and a cursor into it. *)
Record StringView : Type := mkView {
  buffer : string;
  index : nat
}.

(** Modelled from the spec: [StringView.eof], the [at_end] of the
    specification, true once no more characters remain. *)
Definition eof (v : StringView) : bool :=
  (String.length (buffer v) <=? index v)%nat.

(** The length of the run of [c] a string starts with. *)
Fixpoint run_length (c : ascii) (s : string) : nat :=
  match s with
  | EmptyString => O
  | String a s' => if decide (a = c) then S (run_length c s') else O
  end.

(** Modelled from the spec: [StringView.skip_char], the [skip_run] of the
    specification, which advances the cursor past a contiguous run of the
    given character. *)
Definition skip_char (c : ascii) (v : StringView) : StringView :=
  mkView (buffer v)
         (index v + run_length c (Py.drop (index v) (buffer v)))%nat.

(** The position of the first [c] in a string. *)
Fixpoint find_char (c : ascii) (s : string) : option nat :=
  match s with
  | EmptyString => None
  | String a s' =>
      if decide (a = c) then Some O else S <$> find_char c s'
  end.

(** The length of the run of characters that are not whitespace a string
    starts with. *)
Fixpoint word_length (s : string) : nat :=
  match s with
  | EmptyString => O
  | String a s' => if Py.isspace a then O else S (word_length s')
  end.

(** Modelled from the spec: what one call of
    [StringView.get_quoted_word] does.  It returns a word (or [None] at
    the end of the input), or raises [UnexpectedQuoteError], the
    unterminated-quote signal; either way the cursor has moved. *)
Inductive word_outcome : Type :=
  | Word (w : option string) (v : StringView)
  | Unterminated (v : StringView).

(** Modelled from the spec: [StringView.get_quoted_word], the
    [next_quoted_word] of the specification.  The next
    whitespace-delimited token, the delimiter consumed with it; a matched
    pair of quotes is one token, the quotes excluded; nothing at the end of
    the input; a quote opened and not closed is signalled, the cursor left
    at the end of the text scanned. *)
Definition get_quoted_word (v : StringView) : word_outcome :=
  match Py.drop (index v) (buffer v) with
  | EmptyString => Word None v
  | String c r =>
      if decide (c = Py.dquote) then
        match find_char Py.dquote r with
        | Some n => Word (Some (Py.take n r))
                         (mkView (buffer v) (index v + n + 2))
        | None => Unterminated (mkView (buffer v) (String.length (buffer v)))
        end
      else
        let n := word_length (String c r) in
        let i := (index v + n)%nat in
        Word (Some (Py.take n (String c r)))
             (mkView (buffer v)
                     (if (i <? String.length (buffer v))%nat then S i else i))
  end.

(** ** Option descriptors and the parser object *)

(** [ArgumentOptions], a [TypedDict] with [total=False]: a key that is
    absent and a key bound to [None] read the same through [dict.get]. *)
Record ArgumentOptions : Type := mkOptions {
  name : option string;
  aliases : option (list string);
  argmax : option Z
}.

(** The descriptor [ArgumentOptions(name=None)]. *)
Definition no_option : ArgumentOptions := mkOptions None None None.

(** [d.get("argmax", -1)]. *)
Definition get_argmax (d : ArgumentOptions) : Z := default (-1) (argmax d).

(** A [dict] with string keys, in insertion order. *)
Abbreviation dict A := (list (string * A)).

(** [d.get(k)]. *)
Fixpoint dict_get {A : Type} (k : string) (d : dict A) : option A :=
  match d with
  | [] => None
  | (k', v) :: d' => if decide (k' = k) then Some v else dict_get k d'
  end.

(** [d[k]]. *)
Definition dict_item {A : Type} (k : string) (d : dict A) : result A :=
  match dict_get k d with
  | Some v => Ok v
  | None => Raise KeyError
  end.

Record ArgumentParser : Type := mkParser {
  params : dict ArgumentOptions;
  force : bool;
  replace : bool;
  valid_names : gset string;
  short_flags : gset string;
  _default_key : option string;
  _default_name : option string
}.

(** Truthiness of an optional string: neither [None] nor empty. *)
Definition truthy_str (o : option string) : bool :=
  match o with
  | Some s => Py.nonempty s
  | None => false
  end.

(** What the loop of [ArgumentParser.__init__] makes of one entry: a
    missing or empty name becomes the key, missing or empty aliases the
    empty list. *)
Definition canonical_name (k : string) (v : ArgumentOptions) : string :=
  if truthy_str (name v) then default k (name v) else k.

Definition complete_entry (kv : string * ArgumentOptions)
    : string * ArgumentOptions :=
  (kv.1, mkOptions (Some (canonical_name kv.1 kv.2))
                   (Some (default [] (aliases kv.2))) (argmax kv.2)).

(** One turn of that loop over [params.items()]: the entry is completed
    in place and the two sets grow. *)
Definition init_step
    (acc : dict ArgumentOptions * gset string * gset string)
    (kv : string * ArgumentOptions)
    : dict ArgumentOptions * gset string * gset string :=
  let '(ps, names, flags) := acc in
  let nm := canonical_name kv.1 kv.2 in
  let names := {[nm]} ∪ names in
  let names := list_to_set (default [] (aliases kv.2)) ∪ names in
  let flags :=
    if bool_decide (argmax kv.2 = Some 0) && negb (bool_decide (kv.1 = nm))
    then {[kv.1]} ∪ flags else flags in
  (ps ++ [complete_entry kv], names, flags).

(** [ArgumentParser.__init__]. *)
Definition ArgumentParser_init
    (params0 : dict ArgumentOptions) (force0 replace0 : bool)
    (append_remainder_to : option string) : result ArgumentParser :=
  let '(ps, names, flags) := fold_left init_step params0 ([], ∅, ∅) in
  default_name ←
    (if truthy_str append_remainder_to
     then v ← dict_item (default EmptyString append_remainder_to) ps;
          Ok (name v)
     else Ok None);
  Ok (mkParser ps force0 replace0 names flags append_remainder_to
               default_name).

(** ** The session of one [parse] call *)

(** What [_Parser.data] holds under a key. *)
Inductive value : Type :=
  | VList (l : list string)
  | VBool (b : bool)
  | VStr (s : string)
  | VNone.

(** Truthiness of a value. *)
Definition truthy (x : value) : bool :=
  match x with
  | VList l => match l with [] => false | _ => true end
  | VBool b => b
  | VStr s => Py.nonempty s
  | VNone => false
  end.

Record _Parser : Type := mkSession {
  view : StringView;
  current_dict : ArgumentOptions;
  current_key : option string;
  data : gmap (option string) value
}.

(** [_Parser.__init__]. *)
Definition Parser_init (parser : ArgumentParser) (argument : string)
    : result _Parser :=
  let remainder_key := _default_key parser in
  '(cd, ck) ←
    (if truthy_str remainder_key
     then v ← dict_item (default EmptyString remainder_key) (params parser);
          Ok (v, _default_name parser)
     else Ok (no_option, None));
  Ok (mkSession (mkView argument 0) cd ck {[ck := VList []]}).

(** ** Token classification: [ArgumentParser.process_word] *)

(** The loop [for f in joined_flags] of [process_word]: every flag is cut
    out of the token and its option is set to [True].  The flags are the
    members of a set of one-character strings; the cuts commute and the
    stores all write [True], so the order of the traversal does not show. *)
Fixpoint peel_flags (self : ArgumentParser) (joined_flags : list string)
    (argument : string) (d : gmap (option string) value)
    : result (string * gmap (option string) value) :=
  match joined_flags with
  | [] => Ok (argument, d)
  | f :: fs =>
      let argument := Py.replace f EmptyString argument in
      v ← dict_item f (params self);
      peel_flags self fs argument (<[name v := VBool true]> d)
  end.

(** The loop of the double-dash branch: the first entry whose name or
    aliases hold the key. *)
Fixpoint find_long (key : string) (ps : dict ArgumentOptions)
    : option ArgumentOptions :=
  match ps with
  | [] => None
  | (_, v) :: ps' =>
      if bool_decide (Some key = name v)
         || bool_decide (key ∈ default [] (aliases v))
      then Some v else find_long key ps'
  end.

(** Where the first half of [process_word] leaves the call: at one of its
    two early [return False], or at the common tail with [temp_dict], the
    token (cut or not) and the data. *)
Inductive classified : Type :=
  | Returned (d : gmap (option string) value)
  | Resolved (temp_dict : option ArgumentOptions) (argument : string)
             (d : gmap (option string) value).

Definition classify (self : ArgumentParser) (d : gmap (option string) value)
    (argument : string) (allow_sf : bool) : result classified :=
  let key := Py.lower (Py.lstrip Py.dash argument) in
  c0 ← Py.index argument 0;
  single ←
    (if bool_decide (c0 = Py.dash)
     then c1 ← Py.index argument 1; Ok (negb (bool_decide (c1 = Py.dash)))
     else Ok false);
  if single : bool then
    match dict_get key (params self) with
    | Some temp_dict =>
        if negb (bool_decide (name temp_dict = Some key)) then
          if get_argmax temp_dict =? 0
          then Ok (Returned (<[name temp_dict := VBool true]> d))
          else Ok (Resolved (Some temp_dict) argument d)
        else Ok (Resolved (Some no_option) argument d)
    | None =>
        let joined_flags := elements (short_flags self ∩ Py.set_of key) in
        if allow_sf && negb (bool_decide (joined_flags = [])) then
          '(argument, d) ← peel_flags self joined_flags argument d;
          if bool_decide (argument = Py.str Py.dash) then Ok (Returned d)
          else Ok (Resolved (dict_get (Py.drop 1 argument) (params self))
                            argument d)
        else Ok (Resolved None argument d)
    end
  else
    long ←
      (if Py.startswith (String Py.dash (Py.str Py.dash)) argument
       then c2 ← Py.index argument 2; Ok (negb (bool_decide (c2 = Py.dash)))
       else Ok false);
    if (long : bool) && bool_decide (key ∈ valid_names self)
    then Ok (Resolved (Some (default no_option (find_long key (params self))))
                      argument d)
    else Ok (Resolved (Some no_option) argument d).

(** The second half of [process_word], from [if temp_dict is None] on.
    When the first disjunct of the last test holds, [lst] has not been
    bound and the body of the [if] reads it. *)
Definition select (self : ArgumentParser) (parser : _Parser)
    (c : classified) : result (bool * _Parser) :=
  match c with
  | Returned d =>
      Ok (false, mkSession (view parser) (current_dict parser)
                           (current_key parser) d)
  | Resolved temp_dict argument d =>
      let temp_dict := default no_option temp_dict in
      if bool_decide (name temp_dict = None) && negb (force self)
      then Raise UnboundLocalError
      else
        lst ←
          (if bool_decide (is_Some (d !! name temp_dict))
              && negb (replace self)
           then match d !! _default_name self with
                | Some lst => Ok (if truthy lst then Some lst else None)
                | None => Raise KeyError
                end
           else Ok None);
        match lst with
        | Some lst =>
            let d :=
              match lst with
              | VList l => <[_default_name self := VList (l ++ [argument])]> d
              | _ => d
              end in
            Ok (false, mkSession (view parser) (current_dict parser)
                                 (current_key parser) d)
        | None =>
            let d :=
              if bool_decide (name temp_dict = _default_name self) then d
              else <[name temp_dict := VList []]> d in
            Ok (true, mkSession (view parser) temp_dict (name temp_dict) d)
        end
  end.

(** [process_word]: the answer is the returned boolean and the session as
    the call leaves it. *)
Definition process_word (self : ArgumentParser) (parser : _Parser)
    (argument : string) (allow_sf : bool) : result (bool * _Parser) :=
  c ← classify self (data parser) argument allow_sf;
  select self parser c.

(** ** Accumulation: [ArgumentParser.append] *)

Definition append (self : ArgumentParser) (parser : _Parser)
    (argument : string) : result _Parser :=
  let max_length := get_argmax (current_dict parser) in
  match data parser !! current_key parser with
  | None => Raise KeyError
  | Some (VList l) =>
      let l := l ++ [argument] in
      let count := Z.of_nat (length l) in
      let d := <[current_key parser := VList l]> (data parser) in
      Ok (mkSession (view parser) (current_dict parser)
            (if negb (max_length =? -1) && (max_length <=? count)
             then _default_name self else current_key parser)
            d)
  | Some _ => Ok parser
  end.

(** ** Finalisation: [_Parser.finish] *)

(** [SimpleNamespace]: attribute names to values. *)
Abbreviation namespace := (gmap string value).

(** [k.replace("-", "_")]: the field an option is reported under. *)
Definition field_name (n : string) : string :=
  Py.replace (Py.str Py.dash) (Py.str Py.underscore) n.

(** The value [finish] stores for the option [v], from what [data.pop]
    found under its name. *)
Definition finish_value (v : ArgumentOptions) (found : option value) : value :=
  let is_flag := get_argmax v =? 0 in
  match default (if is_flag then VBool false else VNone) found with
  | VList l =>
      if is_flag && bool_decide (l = [])
      then VBool true else VStr (Py.join (Py.str Py.space) l)
  | val => val
  end.

(** One turn of the loop of [finish] over [params.values()]. *)
Definition finish_step (d : gmap (option string) value)
    (v : ArgumentOptions) : gmap (option string) value :=
  let k := name v in
  let val := finish_value v (d !! k) in
  let d := delete k d in
  <[field_name <$> k := val]> d.

(** [{k: v for k, v in data.items() if k is not None}]. *)
Definition to_namespace (d : gmap (option string) value) : namespace :=
  list_to_map
    (omap (fun kv : option string * value => (fun k => (k, kv.2)) <$> kv.1)
          (map_to_list d)).

Definition finish (self : ArgumentParser) (parser : _Parser)
    : result namespace :=
  let d := data parser in
  d ←
    (if bool_decide (_default_key self = None) then
       match d !! None with
       | None => Raise KeyError
       | Some remainder =>
           let d := delete None d in
           Ok (match remainder with
               | VList l =>
                   <[Some "remainder" := VStr (Py.join (Py.str Py.space) l)]> d
               | _ => d
               end)
       end
     else Ok d);
  Ok (to_namespace (fold_left finish_step (params self).*2 d)).

(** ** The loop: [ArgumentParser.parse] *)

Definition set_view (parser : _Parser) (v : StringView) : _Parser :=
  mkSession v (current_dict parser) (current_key parser) (data parser).

(** The first half of the body of the [while] loop, which only moves the
    view: the spaces skipped, [pass_] computed, one word extracted, with
    the recovery of the [except] clause. *)
Definition next_token (view : StringView)
    : result (bool * string * StringView) :=
  let view := skip_char Py.space view in
  let pass_ :=
    bool_decide (Py.slice (index view) (index view + 2) (buffer view)
                 = String Py.dquote (Py.str Py.dash)) in
  let index0 := index view in
  match get_quoted_word view with
  | Word w view => Ok (pass_, default EmptyString w, view)
  | Unterminated view =>
      match get_quoted_word view with
      | Word w view' =>
          Ok (pass_,
              Py.slice index0 (index view) (buffer view)
                +:+ default EmptyString w,
              view')
      | Unterminated _ => Raise UnexpectedQuoteError
      end
  end.

(** Does the token go to [process_word]? *)
Definition looks_like_flag (pass_ : bool) (temp_argument : string) : bool :=
  negb pass_ && Py.startswith (Py.str Py.dash) temp_argument
  && negb (bool_decide (String.length temp_argument = 1%nat)).

(** The second half of the body: the token is classified or appended. *)
Definition dispatch (self : ArgumentParser) (parser : _Parser)
    (pass_ : bool) (argument : string) : result _Parser :=
  let temp_argument := Py.strip argument in
  if looks_like_flag pass_ temp_argument then
    let arguments := Py.split Py.equals temp_argument in
    match arguments with
    | key :: arguments' =>
        if Py.contains Py.equals temp_argument
           && forallb Py.nonempty arguments
        then
          let argument := Py.join (Py.str Py.equals) arguments' in
          '(selected, parser1) ← process_word self parser key false;
          if selected : bool then append self parser1 argument
          else '(_, parser2) ← process_word self parser1 temp_argument true;
               Ok parser2
        else '(_, parser2) ← process_word self parser temp_argument true;
             Ok parser2
    | [] => '(_, parser2) ← process_word self parser temp_argument true;
            Ok parser2
    end
  else append self parser argument.

(** The body of the [while] loop. *)
Definition parse_step (self : ArgumentParser) (parser : _Parser)
    : result _Parser :=
  '(pass_, argument, view) ← next_token (view parser);
  dispatch self (set_view parser view) pass_ argument.

(** [while not view.eof]: at most one turn per character of the input. *)
Fixpoint parse_loop (fuel : nat) (self : ArgumentParser) (parser : _Parser)
    : result _Parser :=
  if eof (view parser) then Ok parser
  else match fuel with
       | O => Diverge
       | S fuel' =>
           parser' ← parse_step self parser;
           parse_loop fuel' self parser'
       end.

Definition parse (self : ArgumentParser) (argument : string)
    : result namespace :=
  parser ← Parser_init self argument;
  parser ← parse_loop (String.length argument) self parser;
  finish self parser.

(** Construction then one parse, for the statements about whole runs. *)
Definition run (params0 : dict ArgumentOptions) (force0 replace0 : bool)
    (append_remainder_to : option string) (argument : string)
    : result namespace :=
  self ← ArgumentParser_init params0 force0 replace0 append_remainder_to;
  parse self argument.

(** [getattr(r, k)] on the result of a run. *)
Definition getattr (r : result namespace) (k : string) : result value :=
  m ← r;
  match m !! k with
  | Some x => Ok x
  | None => Raise AttributeError
  end.

(** ** The configurations of the specification's examples *)

Definition flag_option (n : string) : ArgumentOptions :=
  mkOptions (Some n) None (Some 0).

Definition value_option (n : string) (arity : Z) : ArgumentOptions :=
  mkOptions (Some n) None (Some arity).

(** Option [cl] -> [color], arity 1. *)
Definition color_params : dict ArgumentOptions :=
  [("cl", value_option "color" 1)].

(** Boolean options [h] -> [hidden], [c] -> [card], [t] -> [time]. *)
Definition flag_params : dict ArgumentOptions :=
  [("h", flag_option "hidden"); ("c", flag_option "card");
   ("t", flag_option "time")].

(** The input ["-nope" rest], the first word between double quotes. *)
Definition quoted_nope : string :=
  String Py.dquote "-nope" +:+ String Py.dquote " rest".

(** The names and aliases an entry of the configuration claims. *)
Definition claimed (kv : string * ArgumentOptions) : list string :=
  canonical_name kv.1 kv.2 :: default [] (aliases kv.2).

Definition all_claimed (ps : dict ArgumentOptions) : list string :=
  concat (map claimed ps).

(** [append] over a list of plain words, left to right. *)
Fixpoint append_all (self : ArgumentParser) (parser : _Parser)
    (words : list string) : result _Parser :=
  match words with
  | [] => Ok parser
  | w :: ws => parser' ← append self parser w; append_all self parser' ws
  end.

(** [replace] of one character by one character works character by
    character. *)
Fixpoint subst_char (a b : ascii) (s : string) : string :=
  match s with
  | EmptyString => EmptyString
  | String c s' => String (if decide (a = c) then b else c) (subst_char a b s')
  end.

(** The key of [data] the loop of [finish] writes for an option. *)
Definition option_field (v : ArgumentOptions) : option string :=
  field_name <$> name v.

(** The default key names an entry of the configuration, when there is
    one to name. *)
Definition default_key_known (ps : dict ArgumentOptions)
    (append_remainder_to : option string) : Prop :=
  ∀ k, append_remainder_to = Some k -> Py.nonempty k = true ->
       is_Some (dict_get k ps).

Definition succeeds {A : Type} (r : result A) : bool :=
  match r with Ok _ => true | _ => false end.

(** Two entries under different keys, both called [x]. *)
Definition duplicate_params : dict ArgumentOptions :=
  [("a", value_option "x" 1); ("b", value_option "x" 1)].

(** The parser built from [color_params] with [cl] as the default key. *)
Definition color_default_parser : ArgumentParser :=
  mkParser [("cl", mkOptions (Some "color") (Some []) (Some 1))]
           false true {["color"]} ∅ (Some "cl") (Some "color").

(** The parser built from [color_params] without a default key, and its
    session once [-cl] has been read. *)
Definition color_parser : ArgumentParser :=
  mkParser [("cl", mkOptions (Some "color") (Some []) (Some 1))]
           false true {["color"]} ∅ None None.

Definition color_session : _Parser :=
  mkSession (mkView "-cl red" 4)
            (mkOptions (Some "color") (Some []) (Some 1)) (Some "color")
            {[Some "color" := VList []; None := VList []]}.

(** Two answers of [process_word] that agree on the returned boolean, on
    the current target and on every accumulator but the default one. *)
Definition same_target (self : ArgumentParser)
    (r1 r2 : result (bool * _Parser)) : Prop :=
  match r1, r2 with
  | Ok (b1, p1), Ok (b2, p2) =>
      b1 = b2 ∧ view p1 = view p2
      ∧ current_dict p1 = current_dict p2
      ∧ current_key p1 = current_key p2
      ∧ ∀ k, k ≠ _default_name self -> data p1 !! k = data p2 !! k
  | Raise e1, Raise e2 => e1 = e2
  | Diverge, Diverge => True
  | _, _ => False
  end.

(** A token looked up directly, not as a bundle: two dashes and a text,
    or one dash and a text that is, in lower case, a key of the
    configuration. *)
Definition direct_lookup (self : ArgumentParser) (token : string) : Prop :=
  ∃ c body,
    c ≠ Py.dash
    ∧ (token = String Py.dash (String Py.dash (String c body))
       ∨ token = String Py.dash (String c body)
         ∧ is_Some (dict_get (Py.lower (String c body)) (params self))).

(** Options [h] -> [hidden] (arity 0) and [cl] -> [color] (arity 1). *)
Definition mixed_params : dict ArgumentOptions :=
  [("h", flag_option "hidden"); ("cl", value_option "color" 1)].



(** The characters of a string. *)
Abbreviation chars := String.list_ascii_of_string.

(** The parser built from [flag_params] without a default key. *)
Definition flag_parser : ArgumentParser :=
  mkParser [("h", mkOptions (Some "hidden") (Some []) (Some 0));
            ("c", mkOptions (Some "card") (Some []) (Some 0));
            ("t", mkOptions (Some "time") (Some []) (Some 0))]
           false true
           (list_to_set ["hidden"; "card"; "time"])
           (list_to_set ["h"; "c"; "t"]) None None.


(** The session [parse] starts with under [color_parser]. *)
Definition color_start : _Parser :=
  mkSession (mkView "--color=red text" 12) no_option None
            {[None := VList []]}.

(** The parser built from [h] -> [hidden] alone, and a session of it. *)
Definition hidden_parser : ArgumentParser :=
  mkParser [("h", mkOptions (Some "hidden") (Some []) (Some 0))]
           false true {["hidden"]} {["h"]} None None.

Definition hidden_start : _Parser :=
  mkSession (mkView "--hidden foo" 9) no_option None {[None := VList []]}.


(** [ArgumentParser.convert]: the adapter a command framework calls with
    its context; it hands the argument to [parse]. *)
Definition convert {Context : Type} (self : ArgumentParser) (ctx : Context)
    (argument : string) : result namespace :=
  parse self argument.

(** The configuration of the Spotify commands: [s] -> [style] of arity 1
    and the boolean [h] -> [hidden]. *)
Definition style_params : dict ArgumentOptions :=
  [("s", value_option "style" 1); ("h", flag_option "hidden")].

(** The parser built from [color_params] with [cl] as the default key,
    [force] set, and a session of it that holds a word. *)
Definition forced_default_parser : ArgumentParser :=
  mkParser [("cl", mkOptions (Some "color") (Some []) (Some 1))]
           true true {["color"]} ∅ (Some "cl") (Some "color").

Definition forced_session : _Parser :=
  mkSession (mkView "kept -x lost" 5)
            (mkOptions (Some "color") (Some []) (Some 1)) (Some "color")
            {[Some "color" := VList ["kept"]]}.

(** Option [t] -> [tags] of unbounded arity beside [cl] -> [color]. *)
Definition tags_parser (replace0 : bool) : ArgumentParser :=
  mkParser [("cl", mkOptions (Some "color") (Some []) (Some 1));
            ("t", mkOptions (Some "tags") (Some []) None)]
           false replace0 (list_to_set ["color"; "tags"]) ∅ None None.

(** A session of [tags_parser] in which [color] holds [red] and the
    remainder [text]. *)
Definition tags_session : _Parser :=
  mkSession (mkView "-cl red text -cl blue" 12)
            (mkOptions (Some "color") (Some []) (Some 1)) None
            {[Some "color" := VList ["red"]; None := VList ["text"]]}.

(** The lookups of a session are defined: its data has an entry under
    the default name and one under the current key. *)
Definition session_ok (self : ArgumentParser) (parser : _Parser) : Prop :=
  is_Some (data parser !! _default_name self)
  ∧ is_Some (data parser !! current_key parser).

(** A value a result field can hold: not a list. *)
Definition scalar (x : value) : Prop :=
  match x with VList _ => False | _ => True end.

(** The data [classify] hands on to the second half of [process_word]. *)
Definition classified_data (c : classified) : gmap (option string) value :=
  match c with
  | Returned d => d
  | Resolved _ _ d => d
  end.

(** The keys of the data of a session are names of options, or the
    unnamed key, which holds a list. *)
Definition data_named (self : ArgumentParser)
    (d : gmap (option string) value) : Prop :=
  (∀ k x, d !! Some k = Some x ->
          ∃ v, v ∈ (params self).*2 ∧ name v = Some k)
  ∧ (∀ x, d !! None = Some x -> ∃ l, x = VList l).

(** An option descriptor [process_word] may select: one of the
    configuration, or the one without a name. *)
Definition option_known (self : ArgumentParser) (td : ArgumentOptions)
    : Prop :=
  td = no_option ∨ td ∈ (params self).*2.

(** ** The prefix resolver: [Nokari._resolve_prefix]

    [nokari/core/bot.py].  The answer of [get_prefix] and the content of
    the message are the inputs; the message content may be missing. *)

(** What [get_prefix] answers: one string, or a list of strings. *)
Inductive prefixes_value : Type :=
  | OneString (s : string)
  | ListOfStrings (l : list string).

(** [isinstance(prefixes, str)]: one string becomes a list of one. *)
Definition prefix_list (prefixes : prefixes_value) : list string :=
  match prefixes with
  | OneString s => [s]
  | ListOfStrings l => l
  end.

(** [prefixes.sort(key=len, reverse=True)]: longest first; the sort is
    stable, prefixes of one length keep their order.  [insert_by_len]
    puts a prefix in front of the first one that is not longer. *)
Fixpoint insert_by_len (p : string) (l : list string) : list string :=
  match l with
  | [] => [p]
  | q :: l' =>
      if (String.length p <? String.length q)%nat
      then q :: insert_by_len p l'
      else p :: l
  end.

Definition sort_by_len (l : list string) : list string :=
  foldr insert_by_len [] l.

(** [s.isspace()]: [s] is not empty and holds whitespace only. *)
Fixpoint all_space (s : string) : bool :=
  match s with
  | EmptyString => true
  | String a s' => Py.isspace a && all_space s'
  end.

Definition str_isspace (s : string) : bool :=
  Py.nonempty s && all_space s.

(** The [while] loop of [_resolve_prefix]: the whitespace that follows
    the prefix in the content is added to it, one character a turn. *)
Fixpoint absorb_whitespace (fuel : nat) (lowered_content prefix : string)
    : result string :=
  match fuel with
  | O => Diverge
  | S fuel' =>
      let content_length := String.length lowered_content in
      let prefix_length := String.length prefix in
      let next_char :=
        Py.slice prefix_length (prefix_length + 1) lowered_content in
      if (prefix_length <? content_length)%nat && str_isspace next_char
      then absorb_whitespace fuel' lowered_content (prefix +:+ next_char)
      else Ok prefix
  end.

(** The [for] loop of [_resolve_prefix] over the sorted prefixes. *)
Fixpoint try_prefixes (lowered_content : string) (prefixes : list string)
    : result (option string) :=
  match prefixes with
  | [] => Ok None
  | prefix :: rest =>
      let prefix := Py.strip prefix in
      if Py.startswith prefix lowered_content
      then
        p ← absorb_whitespace (S (String.length lowered_content))
              lowered_content prefix;
        Ok (Some p)
      else try_prefixes lowered_content rest
  end.

Definition _resolve_prefix (prefixes : prefixes_value)
    (content : option string) : result (option string) :=
  let prefixes := sort_by_len (prefix_list prefixes) in
  match content with
  | Some content => try_prefixes (Py.lower content) prefixes
  | None => Ok None
  end.

(** A list of prefixes in which none is longer than one before it. *)
Fixpoint longest_first (l : list string) : Prop :=
  match l with
  | [] => True
  | q :: l' =>
      Forall (fun q' => (String.length q' <= String.length q)%nat) l'
      ∧ longest_first l'
  end.

(** A text that does not begin with whitespace. *)
Definition no_leading_space (s : string) : Prop :=
  match s with
  | EmptyString => True
  | String a _ => Py.isspace a = false
  end.

(** * Properties *)

(** ** Characters and strings *)

Lemma lower_char_idem (c : ascii) :
  Py.lower_char (Py.lower_char c) = Py.lower_char c.
Proof. destruct c as [[] [] [] [] [] [] [] []]; reflexivity. Qed.

Lemma lower_char_dash (c : ascii) :
  Py.lower_char c = Py.dash <-> c = Py.dash.
Proof.
  split; [| intros ->; reflexivity].
  destruct c as [[] [] [] [] [] [] [] []]; vm_compute; congruence.
Qed.

Lemma lower_idem (s : string) : Py.lower (Py.lower s) = Py.lower s.
Proof.
  induction s as [| c s IH]; simpl; [reflexivity |].
  by rewrite lower_char_idem, IH.
Qed.

Lemma lstrip_lower (s : string) :
  Py.lstrip Py.dash (Py.lower s) = Py.lower (Py.lstrip Py.dash s).
Proof.
  induction s as [| c s IH]; simpl; [reflexivity |].
  destruct (decide (c = Py.dash)) as [-> | Hc].
  - simpl. exact IH.
  - destruct (decide (Py.lower_char c = Py.dash)) as [Hl | _].
    + exfalso. apply Hc. by apply lower_char_dash.
    + reflexivity.
Qed.

(** The key [process_word] looks up is the same for a token and for its
    lower-case spelling. *)
Lemma key_lower (s : string) :
  Py.lower (Py.lstrip Py.dash (Py.lower s))
  = Py.lower (Py.lstrip Py.dash s).
Proof. by rewrite lstrip_lower, lower_idem. Qed.

Lemma replace_char (a b : ascii) (s : string) :
  Py.replace (Py.str a) (Py.str b) s = subst_char a b s.
Proof.
  unfold Py.replace.
  induction s as [| c s IH]; [reflexivity |].
  cbn [Py.replace_go subst_char Py.str String.prefix String.length].
  destruct (ascii_dec a c) as [-> | Hne].
  - rewrite decide_True by done.
    assert (String.prefix EmptyString s = true) as -> by (by destruct s).
    cbn. rewrite IH. reflexivity.
  - rewrite decide_False by done. by rewrite IH.
Qed.

Lemma subst_char_fixed (a b : ascii) (s : string) :
  Py.contains a s = false -> subst_char a b s = s.
Proof.
  induction s as [| c s IH]; simpl; [done |].
  destruct (decide (c = a)) as [-> | Hne]; [done |].
  intros H. rewrite decide_False by congruence. by rewrite IH.
Qed.

Lemma subst_char_clean (a b : ascii) (s : string) :
  a ≠ b -> Py.contains a (subst_char a b s) = false.
Proof.
  intros Hab. induction s as [| c s IH]; simpl; [done |].
  destruct (decide (a = c)) as [-> | Hne].
  - by rewrite decide_False by congruence.
  - by rewrite decide_False by congruence.
Qed.

(** A name is sent to a field that holds no [_] only if it is that field
    already. *)
Lemma subst_char_inv (a b : ascii) (s : string) :
  Py.contains b (subst_char a b s) = false -> subst_char a b s = s.
Proof.
  induction s as [| c s IH]; simpl; [done |].
  destruct (decide (a = c)) as [-> | Hne].
  - by rewrite decide_True.
  - destruct (decide (c = b)); [done |]. intros H. by rewrite IH.
Qed.

Lemma field_name_idem (n : string) :
  field_name (field_name n) = field_name n.
Proof.
  unfold field_name. rewrite !replace_char.
  apply subst_char_fixed, subst_char_clean. done.
Qed.

Lemma field_name_remainder (n : string) :
  field_name n = "remainder" -> n = "remainder".
Proof.
  unfold field_name. rewrite replace_char. intros H.
  rewrite <- H. symmetry. apply subst_char_inv. by rewrite H.
Qed.

(** ** The result namespace *)

Lemma to_namespace_lookup (d : gmap (option string) value) (k : string) :
  to_namespace d !! k = d !! Some k.
Proof.
  unfold to_namespace. apply option_eq. intros x.
  rewrite <- elem_of_list_to_map, list_elem_of_omap.
  - split.
    + intros [[[k'|] x'] [Hin Heq]]; simplify_eq/=.
      by apply elem_of_map_to_list in Hin.
    + intros Hx. exists (Some k, x). split; [| done].
      by apply elem_of_map_to_list.
  - pose proof (NoDup_fst_map_to_list d) as Hnd.
    induction (map_to_list d) as [| [[k'|] x'] l IH]; simpl.
    + constructor.
    + inversion Hnd as [| ?? Hnotin Hnd']; subst.
      constructor; [| by apply IH].
      intros Hin. apply Hnotin.
      apply list_elem_of_fmap in Hin as [[k2 x2] [-> Hin]].
      apply list_elem_of_omap in Hin as [[[k3|] x3] [Hin Heq]]; simplify_eq/=.
      apply list_elem_of_fmap. by exists (Some k2, x2).
    + inversion Hnd; subst. by apply IH.
Qed.

(** ** The loop of [finish] *)

Lemma finish_step_other d v (k : option string) :
  k ≠ name v -> k ≠ option_field v -> finish_step d v !! k = d !! k.
Proof.
  intros Hn Hf. unfold finish_step.
  rewrite lookup_insert_ne by (by fold (option_field v)).
  by rewrite lookup_delete_ne.
Qed.

Lemma finish_step_field d v :
  finish_step d v !! option_field v = Some (finish_value v (d !! name v)).
Proof. unfold finish_step, option_field. by rewrite lookup_insert_eq. Qed.

Lemma finish_fold_other vs : ∀ d (k : option string),
  k ∉ name <$> vs -> k ∉ option_field <$> vs ->
  fold_left finish_step vs d !! k = d !! k.
Proof.
  induction vs as [| u vs IH]; intros d k Hn Hf; [done |].
  rewrite !fmap_cons, !not_elem_of_cons in Hn, Hf.
  destruct Hn as [Hn1 Hn2], Hf as [Hf1 Hf2].
  simpl. rewrite IH by done. by apply finish_step_other.
Qed.

(** A name that is another option's field has that field itself. *)
Lemma name_is_field u v :
  name v = option_field u -> option_field v = option_field u.
Proof.
  unfold option_field. intros ->.
  destruct (name u) as [n |]; simpl; [| done].
  by rewrite field_name_idem.
Qed.

Lemma finish_fold_field vs :
  NoDup (option_field <$> vs) ->
  ∀ d v, v ∈ vs ->
    fold_left finish_step vs d !! option_field v
    = Some (finish_value v (d !! name v)).
Proof.
  induction vs as [| u vs IH]; intros Hnd d v Hin; [by inversion Hin |].
  rewrite fmap_cons in Hnd. apply NoDup_cons in Hnd as [Hu Hnd].
  simpl.
  assert (Hnames : ∀ w, w ∈ vs -> name w ≠ option_field u
                                 ∧ name w ≠ name u).
  { intros w Hw. split; intros Heq; apply Hu, list_elem_of_fmap;
      exists w; split; try done; symmetry.
    - by apply name_is_field.
    - unfold option_field. by rewrite Heq. }
  apply elem_of_cons in Hin as [-> | Hin].
  - rewrite finish_fold_other; [apply finish_step_field | | done].
    intros Hin. apply list_elem_of_fmap in Hin as [w [Heq Hw]].
    by destruct (Hnames w Hw) as [H1 _].
  - rewrite IH by done. f_equal. f_equal.
    destruct (Hnames v Hin) as [H1 H2].
    apply finish_step_other; [done |].
    intros Heq. apply Hu, list_elem_of_fmap. exists v. split; [| done].
    symmetry. by apply name_is_field.
Qed.

(** The [remainder] field, once stored as a string, is what the loop
    leaves under that key, whatever the options are called. *)
Lemma finish_fold_remainder vs : ∀ d s,
  d !! Some "remainder" = Some (VStr s) ->
  fold_left finish_step vs d !! Some "remainder" = Some (VStr s).
Proof.
  induction vs as [| u vs IH]; intros d s Hd; [done |].
  simpl. apply IH.
  destruct (decide (name u = Some "remainder")) as [Hu | Hu].
  - assert (option_field u = Some "remainder") as <-.
    { unfold option_field. by rewrite Hu. }
    rewrite finish_step_field, Hu, Hd. done.
  - rewrite finish_step_other; [done | congruence |].
    unfold option_field. destruct (name u) as [n |]; simpl; [| done].
    intros [= Heq]. symmetry in Heq.
    apply field_name_remainder in Heq. congruence.
Qed.

(** ** Construction *)

Lemma init_fold ps0 : ∀ acc,
  (fold_left init_step ps0 acc).1.1 = acc.1.1 ++ (complete_entry <$> ps0).
Proof.
  induction ps0 as [| kv ps0 IH]; intros [[ps names] flags]; simpl.
  - by rewrite app_nil_r.
  - rewrite IH. simpl. by rewrite <- app_assoc.
Qed.

Lemma dict_get_complete k ps0 :
  dict_get k (complete_entry <$> ps0)
  = (fun v => (complete_entry (k, v)).2) <$> dict_get k ps0.
Proof.
  induction ps0 as [| [k' v] ps0 IH]; simpl; [done |].
  destruct (decide (k' = k)) as [-> | Hne]; [done | exact IH].
Qed.

(** What a successful construction has built. *)
Lemma init_inv params0 force0 replace0 dk sch :
  ArgumentParser_init params0 force0 replace0 dk = Ok sch ->
  params sch = complete_entry <$> params0
  ∧ force sch = force0 ∧ replace sch = replace0 ∧ _default_key sch = dk
  ∧ (truthy_str dk = true ->
       ∃ k v, dk = Some k ∧ dict_get k (params sch) = Some v
              ∧ _default_name sch = name v)
  ∧ (truthy_str dk = false -> _default_name sch = None).
Proof.
  unfold ArgumentParser_init.
  pose proof (init_fold params0 ([], ∅, ∅)) as Hps.
  destruct (fold_left init_step params0 ([], ∅, ∅)) as [[ps names] flags].
  simpl in Hps. subst ps.
  destruct (truthy_str dk) eqn:Hdk.
  - destruct dk as [k |]; [| done]. simpl. unfold dict_item.
    destruct (dict_get k (complete_entry <$> params0)) as [v |] eqn:Hk;
      simpl; [| done].
    intros [= <-]. simpl. repeat split; try done; try congruence.
    intros _. by exists k, v.
  - simpl. intros [= <-]. simpl. repeat split; try done; congruence.
Qed.

Lemma init_total params0 force0 replace0 dk :
  (∃ sch, ArgumentParser_init params0 force0 replace0 dk = Ok sch)
  ∨ ArgumentParser_init params0 force0 replace0 dk = Raise KeyError.
Proof.
  unfold ArgumentParser_init.
  destruct (fold_left init_step params0 ([], ∅, ∅)) as [[ps names] flags].
  destruct (truthy_str dk); simpl; [| by eauto].
  unfold dict_item. destruct (dict_get _ ps); simpl; by eauto.
Qed.

Lemma init_names ps0 : ∀ acc n,
  n ∈ (fold_left init_step ps0 acc).1.2
  ↔ n ∈ all_claimed ps0 ∨ n ∈ acc.1.2.
Proof.
  induction ps0 as [| kv ps0 IH]; intros [[ps names] flags] n; simpl.
  - unfold all_claimed. simpl. rewrite elem_of_nil. tauto.
  - rewrite IH. unfold all_claimed, claimed. simpl.
    rewrite elem_of_cons, elem_of_app, !elem_of_union, elem_of_singleton,
      elem_of_list_to_set.
    tauto.
Qed.

(** Construction succeeds as soon as the default key names an entry. *)
Lemma init_succeeds params0 force0 replace0 dk :
  default_key_known params0 dk ->
  ∃ sch, ArgumentParser_init params0 force0 replace0 dk = Ok sch.
Proof.
  intros Hknown. unfold ArgumentParser_init.
  pose proof (init_fold params0 ([], ∅, ∅)) as Hps.
  destruct (fold_left init_step params0 ([], ∅, ∅)) as [[ps names] flags].
  simpl in Hps. subst ps.
  destruct (truthy_str dk) eqn:Hdk; simpl; [| by eauto].
  destruct dk as [k |]; [| done]. simpl in *.
  destruct (Hknown k eq_refl Hdk) as [v Hv].
  unfold dict_item. rewrite dict_get_complete, Hv. simpl. by eauto.
Qed.

(** C3 (as amended).  Construction looks for no duplicate: the names and
    aliases are gathered in a set, which absorbs a repeated one.  It
    succeeds exactly when the default key, if one is given and is not
    empty, is a key of the configuration; otherwise it raises [KeyError]. *)
Theorem construction_ignores_duplicates
    (params0 : dict ArgumentOptions) (force0 replace0 : bool)
    (dk : option string) :
  ((∃ sch, ArgumentParser_init params0 force0 replace0 dk = Ok sch)
     ↔ default_key_known params0 dk)
  ∧ ((∃ sch, ArgumentParser_init params0 force0 replace0 dk = Ok sch)
     ∨ ArgumentParser_init params0 force0 replace0 dk = Raise KeyError)
  ∧ (∀ sch, ArgumentParser_init params0 force0 replace0 dk = Ok sch ->
       ∀ n, n ∈ valid_names sch ↔ n ∈ all_claimed params0).
Proof.
  split; [| split; [apply init_total |]].
  - split.
    + intros [sch Hsch] k -> Hk.
      apply init_inv in Hsch as (Hps & _ & _ & _ & Hdn & _).
      destruct (Hdn Hk) as (k' & v & [= <-] & Hget & _).
      rewrite Hps, dict_get_complete in Hget.
      destruct (dict_get k params0); [by eexists | done].
    + apply init_succeeds.
  - intros sch Hsch n. unfold ArgumentParser_init in Hsch.
    pose proof (init_names params0 ([], ∅, ∅) n) as Hn.
    destruct (fold_left init_step params0 ([], ∅, ∅)) as [[ps names] flags].
    simpl in Hn.
    destruct (truthy_str dk); simpl in Hsch.
    + destruct (dict_item _ ps); simpl in Hsch; [| done..].
      injection Hsch as <-. simpl. rewrite Hn, elem_of_empty. tauto.
    + injection Hsch as <-. simpl. rewrite Hn, elem_of_empty. tauto.
Qed.

Lemma construction_ignores_duplicates_witness :
  (default_key_known duplicate_params (Some "a")
   -> ∃ sch, ArgumentParser_init duplicate_params false true (Some "a")
             = Ok sch)
  ∧ (∀ sch, ArgumentParser_init duplicate_params false true (Some "a")
            = Ok sch -> ("x" ∈ valid_names sch ↔ "x" ∈ all_claimed duplicate_params)).
Proof.
  pose proof (construction_ignores_duplicates duplicate_params false true
                (Some "a")) as (Hiff & _ & Hnames).
  split.
  - apply Hiff.
  - intros sch Hsch. exact (Hnames sch Hsch "x").
Defined.

(** C3, as the specification states it, fails twice over: a
    configuration in which two entries claim the name [x] is accepted,
    and a configuration without any duplicate is turned down when the
    default key names no entry. *)
Lemma construction_accepts_duplicates :
  (¬ NoDup (all_claimed duplicate_params)
   ∧ succeeds (ArgumentParser_init duplicate_params false true None) = true)
  ∧ (NoDup (all_claimed [])
     ∧ ArgumentParser_init [] false true (Some "x") = Raise KeyError).
Proof.
  split; split.
  - intros Hnd. vm_compute in Hnd. inversion Hnd as [| ?? Hx _]; subst.
    apply Hx. by left.
  - vm_compute. reflexivity.
  - constructor.
  - vm_compute. reflexivity.
Qed.

(** ** Parsing the empty string *)

Lemma Parser_init_inv params0 force0 replace0 dk sch argument :
  ArgumentParser_init params0 force0 replace0 dk = Ok sch ->
  ∃ cd, Parser_init sch argument
        = Ok (mkSession (mkView argument 0) cd (_default_name sch)
                        {[_default_name sch := VList []]})
        ∧ (truthy_str dk = true ->
           ∃ k, dk = Some k ∧ dict_get k (params sch) = Some cd
                ∧ _default_name sch = name cd)
        ∧ (truthy_str dk = false -> cd = no_option).
Proof.
  intros Hsch.
  apply init_inv in Hsch as (_ & _ & _ & Hdk & Hyes & Hno).
  unfold Parser_init. rewrite Hdk.
  destruct (truthy_str dk) eqn:Ht.
  - destruct (Hyes eq_refl) as (k & v & -> & Hget & Hdn).
    exists v. simpl. unfold dict_item. rewrite Hget. simpl.
    split; [done |]. split; [| done]. intros _. by exists k.
  - exists no_option. simpl. rewrite (Hno eq_refl).
    split; [done |]. split; [done | done].
Qed.

Lemma dict_get_values {A : Type} k (d : dict A) v :
  dict_get k d = Some v -> v ∈ d.*2.
Proof.
  induction d as [| [k' v'] d IH]; simpl; [done |].
  destruct (decide (k' = k)).
  - intros [= ->]. by left.
  - intros H. right. by apply IH.
Qed.

Lemma finish_value_absent v :
  finish_value v None = if get_argmax v =? 0 then VBool false else VNone.
Proof. unfold finish_value. simpl. by destruct (get_argmax v =? 0). Qed.

(** C5 (as amended).  On the empty string, for a configuration whose
    options are reported under pairwise distinct fields: an option other
    than the default one is [False] when its arity is 0 and [None]
    otherwise (without a default key, provided its field is not
    [remainder]); without a default key [remainder] is the empty string;
    with a non-empty default key the field of the default option is not
    absent, it is the empty string ([True] when the default option has
    arity 0); with a default key, empty or not, there is no [remainder]
    field unless an option is itself reported under that name, and then
    the field holds the value of that option as stated before. *)
Theorem parse_empty_string
    (params0 : dict ArgumentOptions) (force0 replace0 : bool)
    (dk : option string) (sch : ArgumentParser) :
  ArgumentParser_init params0 force0 replace0 dk = Ok sch ->
  NoDup (option_field <$> (params sch).*2) ->
  ∃ r, parse sch EmptyString = Ok r
    ∧ (∀ v, v ∈ (params sch).*2 -> name v ≠ _default_name sch ->
         (dk = None -> option_field v ≠ Some "remainder") ->
         ∃ n, name v = Some n
              ∧ r !! field_name n
                = Some (if get_argmax v =? 0 then VBool false else VNone))
    ∧ (dk = None -> r !! "remainder" = Some (VStr EmptyString))
    ∧ (truthy_str dk = true ->
         ∃ v n, v ∈ (params sch).*2 ∧ name v = Some n
                ∧ _default_name sch = Some n
                ∧ r !! field_name n
                  = Some (if get_argmax v =? 0
                          then VBool true else VStr EmptyString))
    ∧ (dk ≠ None -> Some "remainder" ∉ option_field <$> (params sch).*2 ->
         r !! "remainder" = None).
Proof.
  intros Hsch Hnd.
  destruct (Parser_init_inv _ _ _ _ _ EmptyString Hsch)
    as (cd & Hinit & Hyes & Hno).
  pose proof (init_inv _ _ _ _ _ Hsch) as (Hps & _ & _ & Hdk & _ & Hnone).
  assert (Hsome : ∀ v, v ∈ (params sch).*2 -> ∃ n, name v = Some n).
  { intros v Hv. rewrite Hps in Hv.
    apply list_elem_of_fmap in Hv as [[k v'] [-> Hv]].
    apply list_elem_of_fmap in Hv as [kv [-> _]]. by eexists. }
  unfold parse. rewrite Hinit. simpl. unfold finish. simpl. rewrite Hdk.
  destruct dk as [k |]; simpl.
  - (* a default key is given *)
    eexists. split; [reflexivity |].
    split; [| split; [done | split]].
    + intros v Hv Hne _. destruct (Hsome v Hv) as [n Hn].
      exists n. split; [done |].
      rewrite to_namespace_lookup.
      replace (Some (field_name n)) with (option_field v)
        by (unfold option_field; by rewrite Hn).
      rewrite finish_fold_field by done.
      rewrite lookup_singleton_ne by done. by rewrite finish_value_absent.
    + intros Hk. destruct (Hyes Hk) as (k' & _ & Hget & Hdn).
      pose proof (dict_get_values _ _ _ Hget) as Hcd.
      destruct (Hsome cd Hcd) as [n Hn].
      exists cd, n. split; [done |]. split; [done |].
      split; [congruence |].
      rewrite to_namespace_lookup.
      replace (Some (field_name n)) with (option_field cd)
        by (unfold option_field; by rewrite Hn).
      rewrite finish_fold_field by done.
      rewrite Hdn, lookup_singleton_eq. unfold finish_value. simpl.
      by destruct (get_argmax cd =? 0).
    + intros _ Hrem. rewrite to_namespace_lookup.
      rewrite finish_fold_other; [| | done].
      * apply lookup_singleton_ne. intros Heq.
        destruct (truthy_str (Some k)) eqn:Hk.
        -- destruct (Hyes eq_refl) as (k' & _ & Hget & Hdn).
           apply Hrem, list_elem_of_fmap. exists cd.
           split; [| by eapply dict_get_values].
           unfold option_field. by rewrite <- Hdn, Heq.
        -- by rewrite (Hnone eq_refl) in Heq.
      * intros Hin. apply list_elem_of_fmap in Hin as [w [Hw Hin]].
        apply Hrem, list_elem_of_fmap. exists w. split; [| done].
        unfold option_field. by rewrite <- Hw.
  - (* no default key *)
    rewrite (Hnone eq_refl). rewrite lookup_singleton_eq. simpl.
    eexists. split; [reflexivity |].
    split; [| split; [| split; [done | done]]].
    + intros v Hv _ Hrem. destruct (Hsome v Hv) as [n Hn].
      exists n. split; [done |].
      rewrite to_namespace_lookup.
      replace (Some (field_name n)) with (option_field v)
        by (unfold option_field; by rewrite Hn).
      rewrite finish_fold_field by done.
      rewrite lookup_insert_ne.
      * rewrite lookup_delete_ne by (by rewrite Hn).
        rewrite lookup_singleton_ne by (by rewrite Hn).
        by rewrite finish_value_absent.
      * intros Heq. apply (Hrem eq_refl). unfold option_field.
        rewrite <- Heq. done.
    + intros _. rewrite to_namespace_lookup.
      apply finish_fold_remainder. by rewrite lookup_insert_eq.
Qed.

Lemma parse_empty_string_witness :
  ArgumentParser_init color_params false true (Some "cl")
  = Ok color_default_parser
  ∧ NoDup (option_field <$> (params color_default_parser).*2)
  ∧ ∃ r, parse color_default_parser EmptyString = Ok r
         ∧ r !! "color" = Some (VStr EmptyString).
Proof.
  assert (H1 : ArgumentParser_init color_params false true (Some "cl")
               = Ok color_default_parser) by (vm_compute; reflexivity).
  assert (H2 : NoDup (option_field <$> (params color_default_parser).*2))
    by (simpl; apply NoDup_singleton).
  split; [exact H1 |]. split; [exact H2 |].
  destruct (parse_empty_string _ _ _ _ _ H1 H2)
    as (r & Hr & _ & _ & Hdef & _).
  exists r. split; [exact Hr |].
  destruct (Hdef eq_refl) as (v & n & Hv & _ & Hn & Hfield).
  simpl in Hn. injection Hn as <-.
  simpl in Hv. apply list_elem_of_singleton in Hv. subst v.
  exact Hfield.
Defined.

(** C5, as the specification states it, fails when a default key is
    configured: on the empty string the field of the default option is the
    empty string, neither [None] nor missing. *)
Lemma parse_empty_default_not_absent :
  let r := run color_params false true (Some "cl") EmptyString in
  getattr r "color" = Ok (VStr EmptyString)
  ∧ getattr r "color" ≠ Ok VNone
  ∧ getattr r "color" ≠ Raise AttributeError.
Proof. vm_compute. repeat split; discriminate. Qed.

(** With a default key the result has a [remainder] field only when an
    option goes by that name: for the options [cl] -> [color] and [r] ->
    [remainder] with [cl] the default key, the empty string gives
    [color] the empty string and [remainder] the value [None] of an
    option that was not given; without the option [r] the field is
    missing. *)
Lemma parse_empty_remainder_option :
  let r := run [("cl", value_option "color" 1);
                ("r", value_option "remainder" 1)]
             false true (Some "cl") EmptyString in
  getattr r "color" = Ok (VStr EmptyString)
  ∧ getattr r "remainder" = Ok VNone
  ∧ getattr (run color_params false true (Some "cl") EmptyString)
      "remainder" = Raise AttributeError.
Proof. vm_compute. repeat split. Qed.

(** ** The short flags of a constructed parser *)

Lemma init_flags ps0 : ∀ acc f,
  f ∈ (fold_left init_step ps0 acc).2 ->
  (∃ v, (f, v) ∈ ps0 ∧ argmax v = Some 0 ∧ f ≠ canonical_name f v)
  ∨ f ∈ acc.2.
Proof.
  induction ps0 as [| [k v] ps0 IH]; intros [[ps names] flags] f; simpl.
  - by right.
  - intros Hf. apply IH in Hf as [(w & Hin & Hw) | Hf].
    + left. exists w. split; [by right | done].
    + simpl in Hf.
      destruct (bool_decide (argmax v = Some 0)) eqn:Harg; simpl in Hf;
        [| by right].
      destruct (bool_decide (k = canonical_name k v)) eqn:Hk; simpl in Hf;
        [by right |].
      apply elem_of_union in Hf as [Hf | Hf]; [| by right].
      apply elem_of_singleton in Hf as ->.
      apply bool_decide_eq_true in Harg.
      apply bool_decide_eq_false in Hk.
      left. exists v. split; [by left | done].
Qed.

Lemma init_flags_grow ps0 : ∀ acc f,
  f ∈ acc.2 -> f ∈ (fold_left init_step ps0 acc).2.
Proof.
  induction ps0 as [| [k v] ps0 IH]; intros [[ps names] flags] f Hf;
    [done |].
  simpl. apply IH. simpl in *.
  destruct (_ && _); [| done]. apply elem_of_union. by right.
Qed.

Lemma init_flags_complete ps0 : ∀ acc f v,
  (f, v) ∈ ps0 -> argmax v = Some 0 -> f ≠ canonical_name f v ->
  f ∈ (fold_left init_step ps0 acc).2.
Proof.
  induction ps0 as [| [k w] ps0 IH]; intros [[ps names] flags] f v Hin Harg Hk.
  - by inversion Hin.
  - simpl. apply elem_of_cons in Hin as [[= <- <-] | Hin].
    + apply init_flags_grow. simpl.
      rewrite bool_decide_eq_true_2 by done.
      rewrite bool_decide_eq_false_2 by done. simpl.
      apply elem_of_union. left. by apply elem_of_singleton.
    + by apply (IH _ f v).
Qed.


Lemma dict_get_None_notin {A : Type} k (d : dict A) v :
  dict_get k d = None -> (k, v) ∉ d.
Proof.
  induction d as [| [k' v'] d IH]; simpl; [intros _; apply not_elem_of_nil |].
  destruct (decide (k' = k)) as [-> | Hne]; [done |].
  intros H. apply not_elem_of_cons. split; [congruence | by apply IH].
Qed.

(** A short flag of a constructed parser is a key of the configuration. *)
Lemma short_flag_is_key params0 force0 replace0 dk sch f :
  ArgumentParser_init params0 force0 replace0 dk = Ok sch ->
  f ∈ short_flags sch -> is_Some (dict_get f params0).
Proof.
  unfold ArgumentParser_init. intros Hsch Hf.
  pose proof (init_flags params0 ([], ∅, ∅) f) as Hflags.
  destruct (fold_left init_step params0 ([], ∅, ∅)) as [[ps names] flags].
  assert (Hfl : short_flags sch = flags).
  { destruct (truthy_str dk); simpl in Hsch.
    - destruct (dict_item _ ps); simpl in Hsch; [| done..].
      by injection Hsch as <-.
    - by injection Hsch as <-. }
  rewrite Hfl in Hf. destruct (Hflags Hf) as [(v & Hin & _) | Hin].
  - destruct (dict_get f params0) eqn:Hget; [by eexists |].
    by apply (dict_get_None_notin f params0 v) in Hget.
  - simpl in Hin. by apply elem_of_empty in Hin.
Qed.

(** ** Unrolling the loop *)

Lemma parse_loop_eof fuel sch p :
  eof (view p) = true -> parse_loop fuel sch p = Ok p.
Proof. intros H. destruct fuel; simpl; by rewrite H. Qed.

Lemma parse_loop_step fuel sch p pass_ argument v :
  eof (view p) = false ->
  next_token (view p) = Ok (pass_, argument, v) ->
  parse_loop (S fuel) sch p
  = (p' ← dispatch sch (set_view p v) pass_ argument; parse_loop fuel sch p').
Proof.
  intros Heof Htok. simpl. rewrite Heof. unfold parse_step. by rewrite Htok.
Qed.

Lemma dispatch_plain sch p pass_ argument :
  looks_like_flag pass_ (Py.strip argument) = false ->
  dispatch sch p pass_ argument = append sch p argument.
Proof. intros H. unfold dispatch. by rewrite H. Qed.

Lemma dispatch_flag sch p pass_ argument :
  looks_like_flag pass_ (Py.strip argument) = true ->
  Py.contains Py.equals (Py.strip argument) = false ->
  dispatch sch p pass_ argument
  = ('(_, p') ← process_word sch p (Py.strip argument) true; Ok p').
Proof.
  intros Hflag Heq. unfold dispatch. rewrite Hflag, Heq. simpl.
  by destruct (Py.split Py.equals (Py.strip argument)).
Qed.

(** A run without a default key: construction succeeds and the session
    starts on the unnamed remainder. *)
Lemma run_no_default params0 force0 replace0 argument :
  ∃ sch,
    ArgumentParser_init params0 force0 replace0 None = Ok sch
    ∧ run params0 force0 replace0 None argument
      = (p ← parse_loop (String.length argument) sch
             (mkSession (mkView argument 0) no_option None
                        {[None := VList []]});
         finish sch p)
    ∧ params sch = complete_entry <$> params0
    ∧ force sch = force0 ∧ replace sch = replace0
    ∧ _default_key sch = None ∧ _default_name sch = None.
Proof.
  destruct (init_succeeds params0 force0 replace0 None) as [sch Hsch];
    [by intros k |].
  exists sch. split; [done |].
  pose proof (init_inv _ _ _ _ _ Hsch) as (Hps & Hf & Hr & Hdk & _ & Hdn).
  specialize (Hdn eq_refl).
  split; [| done].
  unfold run. rewrite Hsch. simpl. unfold parse, Parser_init.
  by rewrite Hdk, Hdn.
Qed.

(** ** [append] *)

Lemma append_list sch p w l :
  data p !! current_key p = Some (VList l) ->
  append sch p w
  = Ok (mkSession (view p) (current_dict p)
          (if negb (get_argmax (current_dict p) =? -1)
              && (get_argmax (current_dict p)
                  <=? Z.of_nat (length (l ++ [w])))
           then _default_name sch else current_key p)
          (<[current_key p := VList (l ++ [w])]> (data p))).
Proof. intros H. unfold append. by rewrite H. Qed.

Lemma append_unbounded sch p w l :
  get_argmax (current_dict p) = -1 ->
  data p !! current_key p = Some (VList l) ->
  append sch p w
  = Ok (mkSession (view p) (current_dict p) (current_key p)
          (<[current_key p := VList (l ++ [w])]> (data p))).
Proof. intros Hmax H. rewrite (append_list _ _ _ l) by done. by rewrite Hmax. Qed.

(** ** The quote-then-dash exception *)

Lemma drop_length s : Py.drop (String.length s) s = EmptyString.
Proof. induction s; simpl; done. Qed.

Lemma finish_remainder sch p l :
  _default_key sch = None ->
  data p !! None = Some (VList l) ->
  getattr (finish sch p) "remainder"
  = Ok (VStr (Py.join (Py.str Py.space) l)).
Proof.
  intros Hdk Hd. unfold finish. rewrite Hdk, Hd. simpl.
  rewrite to_namespace_lookup.
  erewrite finish_fold_remainder; [done |].
  by rewrite lookup_insert_eq.
Qed.

(** When the text at the cursor, the spaces skipped, is a double quote
    followed by a dash, the loop body extracts a token and appends it. *)
Lemma quote_dash_step sch p :
  let v := skip_char Py.space (view p) in
  Py.slice (index v) (index v + 2) (buffer v)
  = String Py.dquote (Py.str Py.dash) ->
  ∃ argument v',
    next_token (view p) = Ok (true, argument, v')
    ∧ parse_step sch p = append sch (set_view p v') argument.
Proof.
  intros v Hslice.
  assert (Htok : ∃ argument v',
             next_token (view p) = Ok (true, argument, v')).
  { unfold next_token. fold v. rewrite Hslice.
    rewrite bool_decide_eq_true_2 by done.
    unfold get_quoted_word at 1. unfold Py.slice in Hslice.
    replace (index v + 2 - index v)%nat with 2%nat in Hslice by lia.
    destruct (Py.drop (index v) (buffer v)) as [| c r]; [done |].
    simpl in Hslice. injection Hslice as -> _.
    rewrite decide_True by done.
    destruct (find_char Py.dquote r) as [n |]; [by eauto |].
    unfold get_quoted_word. cbn [index buffer].
    rewrite drop_length. by eauto. }
  destruct Htok as (argument & v' & Htok).
  exists argument, v'. split; [done |].
  unfold parse_step. rewrite Htok. simpl. by apply dispatch_plain.
Qed.

(** C9.  The quote-then-dash exception: when the two characters at the
    cursor are a double quote and a dash, the token of that turn is
    appended as plain text, never classified; and for every configuration
    without a default key (whatever [force] and [replace]),
    parsing ["-nope" rest] gives the remainder [-nope rest]. *)
Theorem quoted_dash_is_literal :
  (∀ sch p,
     Py.slice (index (skip_char Py.space (view p)))
              (index (skip_char Py.space (view p)) + 2)
              (buffer (skip_char Py.space (view p)))
     = String Py.dquote (Py.str Py.dash) ->
     ∃ argument v',
       next_token (view p) = Ok (true, argument, v')
       ∧ parse_step sch p = append sch (set_view p v') argument)
  ∧ (∀ params0 force0 replace0,
       getattr (run params0 force0 replace0 None quoted_nope) "remainder"
       = Ok (VStr "-nope rest")).
Proof.
  split; [intros sch p H; by apply quote_dash_step |].
  intros params0 force0 replace0.
  destruct (run_no_default params0 force0 replace0 quoted_nope)
    as (sch & _ & -> & _ & _ & _ & Hdk & Hdn).
  change (String.length quoted_nope) with 12%nat.
  erewrite parse_loop_step; [| reflexivity | vm_compute; reflexivity].
  rewrite dispatch_plain by reflexivity.
  erewrite append_unbounded; [| reflexivity | apply lookup_singleton_eq].
  cbn [mbind result_bind set_view view current_dict current_key data].
  erewrite parse_loop_step; [| reflexivity | vm_compute; reflexivity].
  rewrite dispatch_plain by reflexivity.
  erewrite append_unbounded; [| reflexivity | apply lookup_insert_eq].
  cbn [mbind result_bind set_view view current_dict current_key data].
  rewrite parse_loop_eof by reflexivity.
  cbn [mbind result_bind].
  erewrite finish_remainder; [| done | apply lookup_insert_eq].
  reflexivity.
Qed.

Lemma quoted_dash_is_literal_witness :
  let p := mkSession (mkView quoted_nope 0) no_option None
                     {[None := VList []]} in
  Py.slice (index (skip_char Py.space (view p)))
           (index (skip_char Py.space (view p)) + 2)
           (buffer (skip_char Py.space (view p)))
  = String Py.dquote (Py.str Py.dash)
  ∧ ∃ argument v',
      next_token (view p) = Ok (true, argument, v')
      ∧ parse_step color_default_parser p
        = append color_default_parser (set_view p v') argument.
Proof.
  intros p. split; [reflexivity |].
  apply (proj1 quoted_dash_is_literal color_default_parser p).
  reflexivity.
Defined.

(** ** Arity *)

(** Once the current target is the default one, plain words pile up
    there and the target does not move. *)
Lemma append_all_default sch ws : ∀ p l0,
  current_key p = _default_name sch ->
  data p !! _default_name sch = Some (VList l0) ->
  ∃ p', append_all sch p ws = Ok p'
        ∧ current_key p' = _default_name sch
        ∧ data p' !! _default_name sch = Some (VList (l0 ++ ws))
        ∧ ∀ k, k ≠ _default_name sch -> data p' !! k = data p !! k.
Proof.
  induction ws as [| w ws IH]; intros p l0 Hkey Hd; simpl.
  - exists p. by rewrite app_nil_r.
  - rewrite (append_list _ _ _ l0) by (by rewrite Hkey).
    cbn [mbind result_bind]. rewrite Hkey.
    match goal with
    | |- context [append_all sch ?q ws] => destruct (IH q (l0 ++ [w]))
        as (p' & Hp' & Hk' & Hd' & Hother)
    end.
    + simpl. by destruct (_ && _).
    + simpl. by rewrite lookup_insert_eq.
    + exists p'. split; [done |]. split; [done |].
      split; [by rewrite <- app_assoc in Hd' |].
      intros k Hk. rewrite Hother by done. simpl.
      by rewrite lookup_insert_ne.
Qed.

(** C7.  Arity auto-close: when a plain word is appended for an option of
    positive arity [N] and brings its accumulator to [N] words, the current
    target becomes the default one, and the plain words that follow go to
    the default accumulator; in particular, with [cl] -> [color] of
    arity 1 and no default key, [-cl red rest of text] gives
    [color = red] and [remainder = rest of text]. *)
Theorem arity_auto_close :
  (∀ sch p w l N,
     get_argmax (current_dict p) = N -> 0 < N ->
     data p !! current_key p = Some (VList l) ->
     Z.of_nat (length l) + 1 = N ->
     ∃ p', append sch p w = Ok p'
       ∧ current_key p' = _default_name sch
       ∧ data p' !! current_key p = Some (VList (l ++ [w]))
       ∧ ∀ ws l0,
           data p' !! _default_name sch = Some (VList l0) ->
           ∃ p'', append_all sch p' ws = Ok p''
             ∧ current_key p'' = _default_name sch
             ∧ data p'' !! _default_name sch = Some (VList (l0 ++ ws))
             ∧ (current_key p ≠ _default_name sch ->
                data p'' !! current_key p = Some (VList (l ++ [w]))))
  ∧ (∀ force0 replace0,
       let r := run color_params force0 replace0 None
                    "-cl red rest of text" in
       getattr r "color" = Ok (VStr "red")
       ∧ getattr r "remainder" = Ok (VStr "rest of text")).
Proof.
  split.
  - intros sch p w l N HN Hpos Hd Hlen.
    rewrite (append_list _ _ _ l) by done.
    eexists. split; [reflexivity |]. cbn [current_key data].
    assert (Hclose : negb (get_argmax (current_dict p) =? -1)
                     && (get_argmax (current_dict p)
                         <=? Z.of_nat (length (l ++ [w]))) = true).
    { rewrite HN, length_app. simpl.
      apply andb_true_intro. split.
      - apply negb_true_iff, Z.eqb_neq. lia.
      - apply Z.leb_le. lia. }
    rewrite Hclose.
    split; [done |]. split; [by rewrite lookup_insert_eq |].
    intros ws l0 Hl0.
    match goal with
    | |- context [append_all sch ?q ws] =>
        destruct (append_all_default sch ws q l0 eq_refl Hl0)
          as (p'' & Hp'' & Hk'' & Hd'' & Hother)
    end.
    exists p''. split; [done |]. split; [done |]. split; [done |].
    intros Hne. rewrite Hother by done. simpl.
    by rewrite lookup_insert_eq.
  - intros [] []; vm_compute; done.
Qed.

Lemma arity_auto_close_witness :
  get_argmax (current_dict color_session) = 1 ∧ 0 < 1
  ∧ data color_session !! current_key color_session = Some (VList [])
  ∧ Z.of_nat (length ([] : list string)) + 1 = 1
  ∧ ∃ p', append color_parser color_session "red" = Ok p'
          ∧ current_key p' = None
          ∧ data p' !! Some "color" = Some (VList ["red"]).
Proof.
  assert (H1 : get_argmax (current_dict color_session) = 1) by reflexivity.
  assert (H2 : 0 < 1) by lia.
  assert (H3 : data color_session !! current_key color_session
               = Some (VList [])) by (vm_compute; reflexivity).
  assert (H4 : Z.of_nat (length ([] : list string)) + 1 = 1) by reflexivity.
  repeat (split; [assumption |]).
  destruct (proj1 arity_auto_close color_parser color_session "red" [] 1
              H1 H2 H3 H4) as (p' & Hp' & Hk' & Hd' & _).
  exists p'. split; [exact Hp' |]. split; [exact Hk' | exact Hd'].
Defined.

(** ** Tokens that match nothing *)

Lemma dispatch_key_value sch p pass_ argument key rest :
  looks_like_flag pass_ (Py.strip argument) = true ->
  Py.split Py.equals (Py.strip argument) = key :: rest ->
  Py.contains Py.equals (Py.strip argument) = true ->
  forallb Py.nonempty (key :: rest) = true ->
  dispatch sch p pass_ argument
  = ('(selected, p1) ← process_word sch p key false;
     if selected : bool
     then append sch p1 (Py.join (Py.str Py.equals) rest)
     else '(_, p2) ← process_word sch p1 (Py.strip argument) true; Ok p2).
Proof.
  intros Hflag Hsplit Heq Hall. unfold dispatch.
  by rewrite Hflag, Hsplit, Heq, Hall.
Qed.

Lemma process_word_two_dashes sch p allow_sf :
  process_word sch p "--" allow_sf = Raise IndexError.
Proof. reflexivity. Qed.

Lemma process_word_one_dash sch p allow_sf :
  process_word sch p "-" allow_sf = Raise IndexError.
Proof. reflexivity. Qed.

Lemma lstrip_single c body :
  c ≠ Py.dash ->
  Py.lstrip Py.dash (String Py.dash (String c body)) = String c body.
Proof.
  intros Hc. cbn [Py.lstrip].
  destruct (decide (Py.dash = Py.dash)); [| done].
  by destruct (decide (c = Py.dash)).
Qed.

(** A single-dash token whose text is no key and holds no short flag
    reaches the last test of [process_word] with no option; with
    [force = False] the body of that test reads [lst] unbound. *)
Lemma process_word_unmatched sch p c body allow_sf :
  force sch = false -> c ≠ Py.dash ->
  dict_get (Py.lower (String c body)) (params sch) = None ->
  short_flags sch ∩ Py.set_of (Py.lower (String c body)) = ∅ ->
  process_word sch p (String Py.dash (String c body)) allow_sf
  = Raise UnboundLocalError.
Proof.
  intros Hforce Hc Hget Hflags. unfold process_word, select, classify.
  rewrite (lstrip_single c body Hc).
  change (Py.index (String Py.dash (String c body)) 0) with (Ok Py.dash).
  change (Py.index (String Py.dash (String c body)) 1) with (Ok c).
  cbn [mbind result_bind].
  rewrite (bool_decide_eq_true_2 (Py.dash = Py.dash)) by done.
  cbn [mbind result_bind].
  rewrite (bool_decide_eq_false_2 (c = Py.dash)) by done.
  cbn [negb]. rewrite Hget, Hflags, elements_empty.
  rewrite (bool_decide_eq_true_2 ([] = [])) by done.
  rewrite andb_false_r. cbn [mbind result_bind default no_option name].
  rewrite (bool_decide_eq_true_2 (None = None)) by done. by rewrite Hforce.
Qed.

(** C1 at its failing inputs.  [parse] raises [IndexError] on [--] (the
    third character is read unguarded) and on [-=x] (so is the second, on
    the key [-] of the shorthand), whatever the configuration. *)
Theorem parse_raises_IndexError :
  (∀ sch p allow_sf, process_word sch p "--" allow_sf = Raise IndexError)
  ∧ (∀ params0 force0 replace0,
       run params0 force0 replace0 None "--" = Raise IndexError)
  ∧ (∀ params0 force0 replace0,
       run params0 force0 replace0 None "-=x" = Raise IndexError).
Proof.
  split; [apply process_word_two_dashes |]. split.
  - intros params0 force0 replace0.
    destruct (run_no_default params0 force0 replace0 "--")
      as (sch & _ & -> & _).
    change (String.length "--") with 2%nat.
    erewrite parse_loop_step; [| reflexivity | vm_compute; reflexivity].
    rewrite dispatch_flag by reflexivity.
    change (Py.strip "--") with "--".
    by rewrite process_word_two_dashes.
  - intros params0 force0 replace0.
    destruct (run_no_default params0 force0 replace0 "-=x")
      as (sch & _ & -> & _).
    change (String.length "-=x") with 3%nat.
    erewrite parse_loop_step; [| reflexivity | vm_compute; reflexivity].
    erewrite dispatch_key_value; [| reflexivity..].
    by rewrite process_word_one_dash.
Qed.

(** C2 at its failing input.  With [force = False], a flag-looking token
    that matches no key is not pushed to the remainder: [process_word]
    raises [UnboundLocalError], and so does [parse] on [-x foo] for every
    configuration without a key [x]. *)
Theorem unknown_flag_raises :
  (∀ sch p c body allow_sf,
     force sch = false -> c ≠ Py.dash ->
     dict_get (Py.lower (String c body)) (params sch) = None ->
     short_flags sch ∩ Py.set_of (Py.lower (String c body)) = ∅ ->
     process_word sch p (String Py.dash (String c body)) allow_sf
     = Raise UnboundLocalError)
  ∧ (∀ params0 replace0,
       dict_get "x" params0 = None ->
       run params0 false replace0 None "-x foo" = Raise UnboundLocalError).
Proof.
  split; [intros; by apply process_word_unmatched |].
  intros params0 replace0 Hx.
  destruct (run_no_default params0 false replace0 "-x foo")
    as (sch & Hsch & -> & Hps & Hforce & _).
  change (String.length "-x foo") with 6%nat.
  erewrite parse_loop_step; [| reflexivity | vm_compute; reflexivity].
  rewrite dispatch_flag by reflexivity.
  change (Py.strip "-x") with "-x".
  rewrite (process_word_unmatched sch _ "x" EmptyString); try done.
  - rewrite Hps, dict_get_complete.
    change (Py.lower "x") with "x". by rewrite Hx.
  - apply set_eq. intros y. rewrite elem_of_intersection, elem_of_empty.
    split; [| done]. intros [Hy Hset].
    apply elem_of_list_to_set in Hset. simpl in Hset.
    apply list_elem_of_singleton in Hset. subst y.
    apply (short_flag_is_key _ _ _ _ _ _ Hsch) in Hy.
    assert (Hkey : is_Some (dict_get "x" params0)) by exact Hy.
    rewrite Hx in Hkey. by destruct Hkey.
Qed.

Lemma unknown_flag_raises_witness :
  dict_get "x" flag_params = None
  ∧ run flag_params false true None "-x foo" = Raise UnboundLocalError.
Proof.
  split; [reflexivity |].
  apply (proj2 unknown_flag_raises flag_params true). reflexivity.
Defined.

(** ** Case of the flag names *)

Lemma lstrip_double c body :
  c ≠ Py.dash ->
  Py.lstrip Py.dash (String Py.dash (String Py.dash (String c body)))
  = String c body.
Proof.
  intros Hc. cbn [Py.lstrip].
  destruct (decide (Py.dash = Py.dash)); [| done].
  by destruct (decide (c = Py.dash)).
Qed.

Lemma classify_long sch d c body allow_sf :
  c ≠ Py.dash ->
  classify sch d (String Py.dash (String Py.dash (String c body))) allow_sf
  = Ok (Resolved
          (Some (if bool_decide (Py.lower (String c body) ∈ valid_names sch)
                 then default no_option
                        (find_long (Py.lower (String c body)) (params sch))
                 else no_option))
          (String Py.dash (String Py.dash (String c body))) d).
Proof.
  intros Hc. unfold classify. rewrite (lstrip_double c body Hc).
  set (t := String Py.dash (String Py.dash (String c body))).
  change (Py.index t 0) with (Ok Py.dash).
  change (Py.index t 1) with (Ok Py.dash).
  change (Py.index t 2) with (Ok c).
  assert (Py.startswith (String Py.dash (Py.str Py.dash)) t = true) as ->
    by reflexivity.
  cbn [mbind result_bind].
  rewrite (bool_decide_eq_true_2 (Py.dash = Py.dash)) by done.
  cbn [mbind result_bind negb].
  rewrite (bool_decide_eq_false_2 (c = Py.dash)) by done.
  cbn [negb andb].
  by destruct (bool_decide (Py.lower (String c body) ∈ valid_names sch)).
Qed.

Lemma classify_short sch d c body allow_sf td :
  c ≠ Py.dash ->
  dict_get (Py.lower (String c body)) (params sch) = Some td ->
  classify sch d (String Py.dash (String c body)) allow_sf
  = Ok (if negb (bool_decide (name td = Some (Py.lower (String c body))))
        then if get_argmax td =? 0
             then Returned (<[name td := VBool true]> d)
             else Resolved (Some td) (String Py.dash (String c body)) d
        else Resolved (Some no_option) (String Py.dash (String c body)) d).
Proof.
  intros Hc Hget. unfold classify. rewrite (lstrip_single c body Hc).
  set (t := String Py.dash (String c body)).
  change (Py.index t 0) with (Ok Py.dash).
  change (Py.index t 1) with (Ok c).
  cbn [mbind result_bind].
  rewrite (bool_decide_eq_true_2 (Py.dash = Py.dash)) by done.
  cbn [mbind result_bind].
  rewrite (bool_decide_eq_false_2 (c = Py.dash)) by done.
  cbn [negb]. rewrite Hget.
  destruct (negb _); [| done]. by destruct (get_argmax td =? 0).
Qed.

Lemma same_target_refl sch r : same_target sch r r.
Proof. by destruct r as [[b p] | e |]. Qed.

(** The token reaches the second half of [process_word] only to be pushed
    as text to the default accumulator. *)
Lemma select_argument sch p td argument argument' d :
  same_target sch (select sch p (Resolved td argument d))
                  (select sch p (Resolved td argument' d))
  ∧ (replace sch = true ->
     select sch p (Resolved td argument d)
     = select sch p (Resolved td argument' d)).
Proof.
  unfold select.
  destruct (bool_decide (name (default no_option td) = None)
            && negb (force sch)); [done |].
  destruct (bool_decide (is_Some (d !! name (default no_option td))))
    eqn:Hin; cbn [andb].
  - destruct (replace sch); cbn [negb].
    + split; [apply same_target_refl | done].
    + split; [| done].
      destruct (d !! _default_name sch) as [lst |]; [| done].
      destruct (truthy lst); [| by apply same_target_refl].
      cbn [mbind result_bind].
      destruct lst; simpl; try done.
      repeat split; try done.
      intros k Hk. by rewrite !lookup_insert_ne.
  - split; [apply same_target_refl | done].
Qed.

Lemma lower_char_not_dash c : c ≠ Py.dash -> Py.lower_char c ≠ Py.dash.
Proof. intros Hc Hl. by apply Hc, lower_char_dash. Qed.

(** C10.  Direct lookups ignore the case of the flag name: for a token
    with two dashes, or with one dash and a text that is a key, the token
    and its lower-case spelling select the same option ([process_word]
    returns the same boolean, leaves the same current target and the same
    accumulators but for the text pushed to the default one, and the very
    same session when [replace] is set); the words captured keep their
    case. *)
Theorem flag_names_ignore_case :
  (∀ sch p token allow_sf,
     direct_lookup sch token ->
     same_target sch (process_word sch p token allow_sf)
                     (process_word sch p (Py.lower token) allow_sf)
     ∧ (replace sch = true ->
        process_word sch p token allow_sf
        = process_word sch p (Py.lower token) allow_sf))
  ∧ (∀ force0 replace0,
       let r := run mixed_params force0 replace0 None
                    "-H --Color=Red Text" in
       let r' := run mixed_params force0 replace0 None
                     "-h --color=Red Text" in
       getattr r "hidden" = Ok (VBool true)
       ∧ getattr r "color" = Ok (VStr "Red")
       ∧ getattr r "remainder" = Ok (VStr "Text")
       ∧ getattr r' "hidden" = Ok (VBool true)
       ∧ getattr r' "color" = Ok (VStr "Red")
       ∧ getattr r' "remainder" = Ok (VStr "Text")).
Proof.
  split; [| intros [] []; vm_compute; done].
  intros sch p token allow_sf (c & body & Hc & [-> | [-> [td Htd]]]).
  - change (Py.lower (String Py.dash (String Py.dash (String c body))))
      with (String Py.dash (String Py.dash (Py.lower (String c body)))).
    unfold process_word. cbn [Py.lower].
    rewrite !classify_long by (done || by apply lower_char_not_dash).
    cbn [mbind result_bind].
    change (String (Py.lower_char c) (Py.lower body))
      with (Py.lower (String c body)).
    rewrite lower_idem. apply select_argument.
  - change (Py.lower (String Py.dash (String c body)))
      with (String Py.dash (Py.lower (String c body))).
    unfold process_word. cbn [Py.lower].
    rewrite (classify_short _ _ c body _ td) by done.
    rewrite (classify_short _ _ (Py.lower_char c) (Py.lower body) _ td).
    + change (String (Py.lower_char c) (Py.lower body))
        with (Py.lower (String c body)).
      rewrite lower_idem.
      destruct (negb _); cbn [mbind result_bind];
        [| by apply select_argument].
      destruct (get_argmax td =? 0); cbn [mbind result_bind];
        [| by apply select_argument].
      split; [apply same_target_refl | done].
    + by apply lower_char_not_dash.
    + change (String (Py.lower_char c) (Py.lower body))
        with (Py.lower (String c body)).
      by rewrite lower_idem.
Qed.

Lemma flag_names_ignore_case_witness :
  direct_lookup color_parser "-CL"
  ∧ process_word color_parser color_session "-CL" true
    = process_word color_parser color_session "-cl" true.
Proof.
  assert (H : direct_lookup color_parser "-CL").
  { exists "C"%char, "L". split; [discriminate |].
    right. split; [reflexivity |]. eexists. reflexivity. }
  split; [exact H |].
  apply (proj1 flag_names_ignore_case color_parser color_session "-CL"
               true H).
  reflexivity.
Defined.

(** ** Bundles of short flags *)









Lemma is_Some_dict_get_complete k ps0 :
  is_Some (dict_get k ps0) -> is_Some (dict_get k (complete_entry <$> ps0)).
Proof. rewrite dict_get_complete. intros [v ->]. by eexists. Qed.



(** ** The loop ends *)

Lemma drop_empty n : ∀ s,
  Py.drop n s = EmptyString -> (String.length s <= n)%nat.
Proof.
  induction n as [| n IH]; intros [| c s]; simpl; try done; try lia.
  intros H. apply IH in H. lia.
Qed.

Lemma drop_nonempty n : ∀ s c r,
  Py.drop n s = String c r -> (n < String.length s)%nat.
Proof.
  induction n as [| n IH]; intros [| a s] c r; simpl; try done; try lia.
  intros H. apply IH in H. lia.
Qed.

(** One extraction moves the cursor forward and keeps the buffer. *)
Lemma next_token_progress v pass_ argument v' :
  eof v = false ->
  next_token v = Ok (pass_, argument, v') ->
  buffer v' = buffer v ∧ (index v < index v')%nat.
Proof.
  unfold eof, next_token. intros Heof%Nat.leb_gt.
  set (v1 := skip_char Py.space v).
  assert (Hb : buffer v1 = buffer v) by reflexivity.
  assert (Hi : (index v <= index v1)%nat) by (simpl; lia).
  unfold get_quoted_word at 1.
  destruct (Py.drop (index v1) (buffer v1)) as [| c r] eqn:Hdrop.
  - intros [= _ _ <-]. apply drop_empty in Hdrop. split; [done |].
    rewrite Hb in Hdrop. lia.
  - apply drop_nonempty in Hdrop. rewrite Hb in Hdrop.
    destruct (decide (c = Py.dquote)) as [_ | _].
    + destruct (find_char Py.dquote r) as [n |].
      * intros [= _ _ <-]. simpl. split; [done | lia].
      * unfold get_quoted_word. cbn [index buffer].
        rewrite drop_length. intros [= _ _ <-]. simpl.
        split; [done | lia].
    + intros [= _ _ <-]. cbn [index buffer]. split; [done |].
      subst v1. simpl in *. destruct (Py.isspace c);
        match goal with
        | |- context [(?a <? ?b)%nat] => destruct (Nat.ltb_spec a b)
        end; lia.
Qed.

Lemma next_token_halts v : next_token v ≠ Diverge.
Proof.
  unfold next_token.
  destruct (get_quoted_word _) as [w v1 | v1]; [done |].
  by destruct (get_quoted_word v1).
Qed.

Lemma select_view sch p c :
  match select sch p c with
  | Ok (_, p') => view p' = view p
  | Raise _ => True
  | Diverge => False
  end.
Proof.
  unfold select. destruct c as [d | td argument d]; [done |].
  destruct (_ && negb (force sch)); [done |].
  destruct (_ && negb (replace sch)); [| done].
  destruct (d !! _default_name sch) as [lst |]; [| done].
  by destruct (truthy lst).
Qed.

Lemma peel_flags_halts sch fs : ∀ argument d,
  peel_flags sch fs argument d ≠ Diverge.
Proof.
  induction fs as [| f fs IH]; intros argument d; [done |].
  cbn [peel_flags]. unfold dict_item.
  destruct (dict_get f (params sch)); [apply IH | done].
Qed.

Lemma index_halts s n : Py.index s n ≠ Diverge.
Proof. unfold Py.index. by destruct (String.get n s). Qed.

Lemma classify_halts sch d argument allow_sf :
  classify sch d argument allow_sf ≠ Diverge.
Proof.
  unfold classify.
  destruct (Py.index argument 0) as [c0 | |] eqn:H0; [| done |];
    [| by apply index_halts in H0].
  cbn [mbind result_bind].
  destruct (bool_decide (c0 = Py.dash)).
  - destruct (Py.index argument 1) as [c1 | |] eqn:H1; [| done |];
      [| by apply index_halts in H1].
    cbn [mbind result_bind].
    destruct (negb (bool_decide (c1 = Py.dash))).
    + destruct (dict_get _ (params sch)) as [td |].
      * destruct (negb _); [| done]. by destruct (get_argmax td =? 0).
      * destruct (allow_sf && _); [| done].
        match goal with
        | |- context [peel_flags ?a ?b ?c ?e] =>
            pose proof (peel_flags_halts a b c e) as Hp;
            destruct (peel_flags a b c e) as [[arg' d'] | |]
        end; [| done | done].
        cbn [mbind result_bind]. by destruct (bool_decide _).
    + destruct (Py.startswith _ argument).
      * destruct (Py.index argument 2) as [c2 | |] eqn:H2; [| done |];
          [| by apply index_halts in H2].
        cbn [mbind result_bind]. by destruct (_ && _).
      * cbn [mbind result_bind]. by destruct (_ && _).
  - cbn [mbind result_bind].
    destruct (Py.startswith _ argument).
    + destruct (Py.index argument 2) as [c2 | |] eqn:H2; [| done |];
        [| by apply index_halts in H2].
      cbn [mbind result_bind]. by destruct (_ && _).
    + cbn [mbind result_bind]. by destruct (_ && _).
Qed.

(** [process_word] and [append] leave the view alone. *)
Lemma process_word_view sch p argument allow_sf :
  match process_word sch p argument allow_sf with
  | Ok (_, p') => view p' = view p
  | Raise _ => True
  | Diverge => False
  end.
Proof.
  unfold process_word.
  pose proof (classify_halts sch (data p) argument allow_sf) as Hc.
  destruct (classify sch (data p) argument allow_sf) as [c | e |];
    [| done | done].
  apply select_view.
Qed.

Lemma append_view sch p argument :
  match append sch p argument with
  | Ok p' => view p' = view p
  | Raise _ => True
  | Diverge => False
  end.
Proof.
  unfold append. destruct (data p !! current_key p) as [[] |]; done.
Qed.

Lemma dispatch_view sch p pass_ argument :
  match dispatch sch p pass_ argument with
  | Ok p' => view p' = view p
  | Raise _ => True
  | Diverge => False
  end.
Proof.
  assert (Hfull : ∀ q,
    match ('(_, p2) ← process_word sch q (Py.strip argument) true; Ok p2)
    with
    | Ok p' => view p' = view q
    | Raise _ => True
    | Diverge => False
    end).
  { intros q.
    pose proof (process_word_view sch q (Py.strip argument) true) as H.
    by destruct (process_word sch q (Py.strip argument) true)
      as [[b p2] | e |]. }
  unfold dispatch.
  destruct (looks_like_flag pass_ (Py.strip argument));
    [| apply append_view].
  destruct (Py.split Py.equals (Py.strip argument)) as [| key rest];
    [apply Hfull |].
  destruct (_ && _); [| apply Hfull].
  pose proof (process_word_view sch p key false) as Hkey.
  destruct (process_word sch p key false) as [[selected p1] | e |];
    [| done | done].
  cbn [mbind result_bind]. destruct selected.
  - pose proof (append_view sch p1 (Py.join (Py.str Py.equals) rest)) as H.
    destruct (append sch p1 _); [congruence | done | done].
  - pose proof (Hfull p1) as H.
    destruct (process_word sch p1 (Py.strip argument) true)
      as [[b p2] | e |]; simpl in *; [congruence | done | done].
Qed.

(** With one unit of fuel per character left, the loop returns or raises. *)
Lemma parse_loop_halts sch fuel : ∀ p,
  (String.length (buffer (view p)) - index (view p) <= fuel)%nat ->
  parse_loop fuel sch p ≠ Diverge.
Proof.
  induction fuel as [| fuel IH]; intros p Hfuel; simpl.
  - assert (eof (view p) = true) as -> by (apply Nat.leb_le; lia). done.
  - destruct (eof (view p)) eqn:Heof; [done |].
    unfold parse_step.
    pose proof (next_token_halts (view p)) as Hhalt.
    destruct (next_token (view p)) as [[[pass_ argument] v] | e |] eqn:Htok;
      [| done | done].
    cbn [mbind result_bind].
    destruct (next_token_progress _ _ _ _ Heof Htok) as [Hbuf Hidx].
    pose proof (dispatch_view sch (set_view p v) pass_ argument) as Hview.
    destruct (dispatch sch (set_view p v) pass_ argument) as [p' | e |];
      [| done | done].
    cbn [mbind result_bind]. apply IH.
    rewrite Hview. simpl. rewrite Hbuf.
    apply Nat.leb_gt in Heof. lia.
Qed.

(** [parse] returns a result or raises: its loop always ends. *)
Lemma parse_halts sch argument : parse sch argument ≠ Diverge.
Proof.
  unfold parse, Parser_init.
  destruct (truthy_str (_default_key sch)).
  - unfold dict_item. destruct (dict_get _ (params sch)); [| done].
    cbn [mbind result_bind].
    match goal with
    | |- context [parse_loop ?n sch ?q] =>
        pose proof (parse_loop_halts sch n q) as H;
        destruct (parse_loop n sch q) as [p' | e |]
    end; [| done | exfalso; apply H; [simpl; lia | done]].
    cbn [mbind result_bind]. unfold finish.
    destruct (bool_decide _); [| done].
    by destruct (data p' !! None).
  - cbn [mbind result_bind].
    match goal with
    | |- context [parse_loop ?n sch ?q] =>
        pose proof (parse_loop_halts sch n q) as H;
        destruct (parse_loop n sch q) as [p' | e |]
    end; [| done | exfalso; apply H; [simpl; lia | done]].
    cbn [mbind result_bind]. unfold finish.
    destruct (bool_decide _); [| done].
    by destruct (data p' !! None).
Qed.

(** ** The [key=value] shorthand *)

Lemma split_nonempty sep s : Py.split sep s ≠ [].
Proof.
  destruct s as [| c s]; simpl; [done |].
  destruct (decide (c = sep)); [done |]. by destruct (Py.split sep s).
Qed.

Lemma split_key key : ∀ value,
  Py.contains Py.equals key = false ->
  Py.split Py.equals (key +:+ String Py.equals value)
  = key :: Py.split Py.equals value.
Proof.
  induction key as [| c key IH]; intros value Hkey.
  - cbn. by destruct (decide (Py.equals = Py.equals)).
  - simpl in Hkey. destruct (decide (c = Py.equals)) as [| Hc]; [done |].
    change (String c key +:+ String Py.equals value)
      with (String c (key +:+ String Py.equals value)).
    cbn [Py.split]. rewrite decide_False by done. by rewrite IH.
Qed.

Lemma contains_key key value :
  Py.contains Py.equals (key +:+ String Py.equals value) = true.
Proof.
  induction key as [| c key IH].
  - cbn. by destruct (decide (Py.equals = Py.equals)).
  - change (String c key +:+ String Py.equals value)
      with (String c (key +:+ String Py.equals value)).
    cbn [Py.contains]. by destruct (decide (c = Py.equals)).
Qed.

Lemma join_cons sep c w ws :
  Py.join sep (String c w :: ws) = String c (Py.join sep (w :: ws)).
Proof. unfold Py.join. by destruct ws. Qed.

Lemma join_two sep x w ws :
  Py.join sep (x :: w :: ws) = x +:+ sep +:+ Py.join sep (w :: ws).
Proof. reflexivity. Qed.

(** [sep.join(s.split(sep)) == s]. *)
Lemma join_split (s : string) :
  Py.join (Py.str Py.equals) (Py.split Py.equals s) = s.
Proof.
  induction s as [| c s IH]; [reflexivity |].
  cbn [Py.split]. destruct (decide (c = Py.equals)) as [-> | Hc].
  - pose proof (split_nonempty Py.equals s) as Hne.
    destruct (Py.split Py.equals s) as [| w ws]; [done |].
    by rewrite join_two, IH.
  - pose proof (split_nonempty Py.equals s) as Hne.
    destruct (Py.split Py.equals s) as [| w ws]; [done |].
    by rewrite join_cons, IH.
Qed.

(** C6.  The shorthand [key=value] does what the key followed by the
    value as the next token does: when the key selects an option and the
    value is a plain word, the loop body on [key=value] leaves the session
    where the loop body on a key selecting the same option, then on the
    value, leaves it; in particular, with [cl] -> [color] of arity 1 and
    no default key (whatever [force] and [replace]), [--color=red text]
    and [-cl red text] give the same [color] and the same [remainder]:
    [red] and [text]. *)
Theorem key_value_shorthand :
  (∀ sch p p1 key1 key2 value,
     Py.strip (key1 +:+ String Py.equals value)
     = key1 +:+ String Py.equals value ->
     looks_like_flag false (key1 +:+ String Py.equals value) = true ->
     Py.contains Py.equals key1 = false ->
     Py.nonempty key1 = true ->
     forallb Py.nonempty (Py.split Py.equals value) = true ->
     looks_like_flag false (Py.strip key2) = true ->
     Py.contains Py.equals (Py.strip key2) = false ->
     looks_like_flag false (Py.strip value) = false ->
     process_word sch p key1 false = Ok (true, p1) ->
     process_word sch p (Py.strip key2) true = Ok (true, p1) ->
     dispatch sch p false (key1 +:+ String Py.equals value)
     = append sch p1 value
     ∧ (p' ← dispatch sch p false key2; dispatch sch p' false value)
       = append sch p1 value)
  ∧ (∀ force0 replace0,
       let r1 := run color_params force0 replace0 None "--color=red text" in
       let r2 := run color_params force0 replace0 None "-cl red text" in
       getattr r1 "color" = getattr r2 "color"
       ∧ getattr r1 "remainder" = getattr r2 "remainder"
       ∧ getattr r1 "color" = Ok (VStr "red")
       ∧ getattr r1 "remainder" = Ok (VStr "text")).
Proof.
  split; [| intros [] []; vm_compute; done].
  intros sch p p1 key1 key2 value Hstrip Hflag Hkey Hne Hparts Hflag2 Heq2
    Hplain Hsel1 Hsel2.
  split.
  - rewrite (dispatch_key_value _ _ _ _ key1 (Py.split Py.equals value)).
    + rewrite Hsel1. cbn [mbind result_bind]. by rewrite join_split.
    + by rewrite Hstrip.
    + rewrite Hstrip. by apply split_key.
    + rewrite Hstrip. apply contains_key.
    + cbn [forallb]. by rewrite Hne, Hparts.
  - rewrite dispatch_flag by done. rewrite Hsel2.
    cbn [mbind result_bind]. by apply dispatch_plain.
Qed.

Lemma key_value_shorthand_witness :
  let p1 := mkSession (view color_start)
                      (mkOptions (Some "color") (Some []) (Some 1))
                      (Some "color")
                      (<[Some "color" := VList []]> (data color_start)) in
  dispatch color_parser color_start false "--color=red"
  = append color_parser p1 "red"
  ∧ (p' ← dispatch color_parser color_start false "-cl";
     dispatch color_parser p' false "red")
    = append color_parser p1 "red".
Proof.
  intros p1.
  apply (proj1 key_value_shorthand color_parser color_start p1
               "--color" "-cl" "red"); reflexivity.
Defined.

(** ** Boolean options *)

(** C4 at its failing input.  The long spelling of an option of arity 0
    opens an accumulator for it, the next plain word is appended there
    before the arity is looked at, and [finish] reports the option as that
    word, a string; with [h] -> [hidden], [--hidden foo] gives
    [hidden = foo] and an empty remainder, where the short spelling
    [-h foo] gives [hidden = True] and the remainder [foo]. *)
Theorem long_flag_captures_a_word :
  (∀ sch p c body v n w allow_sf,
     c ≠ Py.dash ->
     Py.lower (String c body) ∈ valid_names sch ->
     find_long (Py.lower (String c body)) (params sch) = Some v ->
     name v = Some n -> get_argmax v = 0 ->
     replace sch = true ->
     Some n ≠ _default_name sch ->
     ∃ p1 p2,
       process_word sch p (String Py.dash (String Py.dash (String c body)))
                    allow_sf = Ok (true, p1)
       ∧ current_key p1 = Some n
       ∧ append sch p1 w = Ok p2
       ∧ data p2 !! Some n = Some (VList [w])
       ∧ finish_value v (data p2 !! Some n) = VStr w)
  ∧ (let r := run [("h", flag_option "hidden")] false true None
                  "--hidden foo" in
     let r' := run [("h", flag_option "hidden")] false true None
                   "-h foo" in
     getattr r "hidden" = Ok (VStr "foo")
     ∧ getattr r "remainder" = Ok (VStr EmptyString)
     ∧ getattr r' "hidden" = Ok (VBool true)
     ∧ getattr r' "remainder" = Ok (VStr "foo")).
Proof.
  split; [| vm_compute; done].
  intros sch p c body v n w allow_sf Hc Hvalid Hfind Hname Harity Hreplace
    Hdefault.
  unfold process_word. rewrite classify_long by done.
  rewrite bool_decide_eq_true_2 by done. rewrite Hfind.
  cbn [mbind result_bind]. unfold select.
  cbn [default from_option id].
  rewrite Hname, Hreplace.
  rewrite (bool_decide_eq_false_2 (Some n = None)) by done.
  rewrite andb_false_r. cbn [andb negb mbind result_bind].
  rewrite (bool_decide_eq_false_2 (Some n = _default_name sch)) by done.
  eexists. eexists. split; [reflexivity |]. split; [reflexivity |].
  rewrite (append_list _ _ _ []) by apply lookup_insert_eq.
  split; [reflexivity |]. cbn [data current_key].
  rewrite lookup_insert_eq. split; [reflexivity |].
  unfold finish_value. rewrite Harity. reflexivity.
Qed.

Lemma long_flag_captures_a_word_witness :
  ∃ p1 p2,
    process_word hidden_parser hidden_start "--hidden" true = Ok (true, p1)
    ∧ append hidden_parser p1 "foo" = Ok p2
    ∧ data p2 !! Some "hidden" = Some (VList ["foo"]).
Proof.
  destruct (proj1 long_flag_captures_a_word hidden_parser hidden_start
              "h"%char "idden"
              (mkOptions (Some "hidden") (Some []) (Some 0)) "hidden" "foo"
              true)
    as (p1 & p2 & H1 & _ & H2 & H3 & _).
  - discriminate.
  - vm_compute. reflexivity.
  - reflexivity.
  - reflexivity.
  - reflexivity.
  - reflexivity.
  - discriminate.
  - exists p1, p2. split; [exact H1 |]. split; [exact H2 | exact H3].
Defined.

(** * Further properties of the parser *)

(** ** Construction *)

(** X1.  The short flags of a constructed parser are exactly the keys of
    the configuration bound to an option of arity 0 whose canonical name
    is not the key; the key may have any length. *)
Theorem short_flags_characterised
    (params0 : dict ArgumentOptions) (force0 replace0 : bool)
    (dk : option string) (sch : ArgumentParser) (f : string) :
  ArgumentParser_init params0 force0 replace0 dk = Ok sch ->
  (f ∈ short_flags sch
   ↔ ∃ v, (f, v) ∈ params0 ∧ argmax v = Some 0 ∧ f ≠ canonical_name f v).
Proof.
  unfold ArgumentParser_init. intros Hsch.
  pose proof (init_flags params0 ([], ∅, ∅) f) as Hsound.
  pose proof (init_flags_complete params0 ([], ∅, ∅) f) as Hcomplete.
  destruct (fold_left init_step params0 ([], ∅, ∅)) as [[ps names] flags].
  assert (Hfl : short_flags sch = flags).
  { destruct (truthy_str dk); simpl in Hsch.
    - destruct (dict_item _ ps); simpl in Hsch; [| done..].
      by injection Hsch as <-.
    - by injection Hsch as <-. }
  rewrite Hfl. simpl in *. split.
  - intros Hf. destruct (Hsound Hf) as [H | H]; [done |].
    by apply elem_of_empty in H.
  - intros (v & Hin & Harg & Hk). by apply (Hcomplete v).
Qed.

Lemma short_flags_characterised_witness :
  ArgumentParser_init flag_params false true None = Ok flag_parser
  ∧ ("h" ∈ short_flags flag_parser
     ↔ ∃ v, ("h", v) ∈ flag_params ∧ argmax v = Some 0
            ∧ "h" ≠ canonical_name "h" v).
Proof.
  assert (H : ArgumentParser_init flag_params false true None
              = Ok flag_parser) by (vm_compute; reflexivity).
  split; [exact H |].
  exact (short_flags_characterised flag_params false true None flag_parser
           "h" H).
Defined.







(** ** Long spellings *)

Lemma valid_names_claimed params0 force0 replace0 dk sch n :
  ArgumentParser_init params0 force0 replace0 dk = Ok sch ->
  n ∈ valid_names sch ↔ n ∈ all_claimed params0.
Proof.
  unfold ArgumentParser_init. intros Hsch.
  pose proof (init_names params0 ([], ∅, ∅) n) as Hn.
  destruct (fold_left init_step params0 ([], ∅, ∅)) as [[ps names] flags].
  simpl in Hn.
  destruct (truthy_str dk); simpl in Hsch.
  - destruct (dict_item _ ps); simpl in Hsch; [| done..].
    injection Hsch as <-. simpl. rewrite Hn, elem_of_empty. tauto.
  - injection Hsch as <-. simpl. rewrite Hn, elem_of_empty. tauto.
Qed.

(** Does an entry answer to a key, by its name or one of its aliases? *)
Lemma find_long_first key ps :
  match find_long key ps with
  | Some v =>
      ∃ l1 k l2,
        ps = l1 ++ (k, v) :: l2
        ∧ (∀ u, u ∈ l1.*2 ->
             name u ≠ Some key ∧ key ∉ default [] (aliases u))
        ∧ (name v = Some key ∨ key ∈ default [] (aliases v))
  | None =>
      ∀ u, u ∈ ps.*2 -> name u ≠ Some key ∧ key ∉ default [] (aliases u)
  end.
Proof.
  induction ps as [| [k v] ps IH]; simpl.
  - intros u Hu. by apply elem_of_nil in Hu.
  - destruct (bool_decide (Some key = name v)) eqn:Hname; simpl.
    + apply bool_decide_eq_true in Hname.
      exists [], k, ps. split; [done |]. split; [| by left].
      intros u Hu. by apply elem_of_nil in Hu.
    + apply bool_decide_eq_false in Hname.
      destruct (bool_decide (key ∈ default [] (aliases v))) eqn:Hal; simpl.
      * apply bool_decide_eq_true in Hal.
        exists [], k, ps. split; [done |]. split; [| by right].
        intros u Hu. by apply elem_of_nil in Hu.
      * apply bool_decide_eq_false in Hal.
        destruct (find_long key ps) as [w |].
        -- destruct IH as (l1 & k' & l2 & -> & Hbefore & Hw).
           exists ((k, v) :: l1), k', l2. split; [done |]. split; [| done].
           intros u Hu. rewrite fmap_cons in Hu.
           apply elem_of_cons in Hu as [-> | Hu]; [| by apply Hbefore].
           split; [intros Heq; by apply Hname | done].
        -- intros u Hu. apply elem_of_cons in Hu as [-> | Hu];
             [| by apply IH].
           split; [intros Heq; by apply Hname | done].
Qed.

Lemma claimed_complete key ps0 :
  key ∈ all_claimed ps0
  ↔ ∃ u, u ∈ (complete_entry <$> ps0).*2
         ∧ (name u = Some key ∨ key ∈ default [] (aliases u)).
Proof.
  induction ps0 as [| [k v] ps0 IH].
  - unfold all_claimed. simpl. split.
    + intros H. by apply elem_of_nil in H.
    + intros (u & Hu & _). by apply elem_of_nil in Hu.
  - unfold all_claimed in *. rewrite fmap_cons. cbn [concat].
    rewrite elem_of_app, IH. unfold claimed at 1. cbn [fst snd].
    rewrite elem_of_cons. split.
    + intros [[-> | Hal] | (u & Hu & Hkey)].
      * eexists. split; [by left |]. by left.
      * eexists. split; [by left |]. by right.
      * exists u. split; [by right | done].
    + intros (u & Hu & Hkey). rewrite !fmap_cons in Hu.
      apply elem_of_cons in Hu as [-> | Hu].
      * left. simpl in Hkey. destruct Hkey as [[= <-] | Hal]; by eauto.
      * right. by exists u.
Qed.

(** X3.  A token of two dashes and a text selects an option exactly when
    the text, in lower case, is the canonical name or an alias of an
    entry, and then the first such entry in the order of the
    configuration; otherwise no option is found. *)
Theorem long_spelling_lookup
    (params0 : dict ArgumentOptions) (force0 replace0 : bool)
    (dk : option string) (sch : ArgumentParser)
    (d : gmap (option string) value) (c : ascii) (body : string)
    (allow_sf : bool) :
  ArgumentParser_init params0 force0 replace0 dk = Ok sch ->
  c ≠ Py.dash ->
  (Py.lower (String c body) ∈ all_claimed params0 ->
   ∃ l1 k v l2,
     params sch = l1 ++ (k, v) :: l2
     ∧ (∀ u, u ∈ l1.*2 ->
          name u ≠ Some (Py.lower (String c body))
          ∧ Py.lower (String c body) ∉ default [] (aliases u))
     ∧ (name v = Some (Py.lower (String c body))
        ∨ Py.lower (String c body) ∈ default [] (aliases v))
     ∧ classify sch d (String Py.dash (String Py.dash (String c body)))
                allow_sf
       = Ok (Resolved (Some v)
               (String Py.dash (String Py.dash (String c body))) d))
  ∧ (Py.lower (String c body) ∉ all_claimed params0 ->
     classify sch d (String Py.dash (String Py.dash (String c body)))
              allow_sf
     = Ok (Resolved (Some no_option)
             (String Py.dash (String Py.dash (String c body))) d)).
Proof.
  intros Hsch Hc. rewrite classify_long by done.
  pose proof (init_inv _ _ _ _ _ Hsch) as (Hps & _).
  split.
  - intros Hkey.
    rewrite bool_decide_eq_true_2
      by (by apply (valid_names_claimed _ _ _ _ _ _ Hsch)).
    pose proof (find_long_first (Py.lower (String c body)) (params sch))
      as Hfind.
    destruct (find_long _ (params sch)) as [v |].
    + destruct Hfind as (l1 & k & l2 & Heq & Hbefore & Hv).
      by exists l1, k, v, l2.
    + exfalso. apply claimed_complete in Hkey as (u & Hu & Hclaims).
      rewrite <- Hps in Hu. destruct (Hfind u Hu) as [H1 H2].
      by destruct Hclaims.
  - intros Hkey.
    rewrite bool_decide_eq_false_2; [done |].
    by rewrite (valid_names_claimed _ _ _ _ _ _ Hsch).
Qed.

Lemma long_spelling_lookup_witness :
  ∃ l1 k v l2,
    params flag_parser = l1 ++ (k, v) :: l2
    ∧ name v = Some "card"
    ∧ classify flag_parser ∅ "--Card" true
      = Ok (Resolved (Some v) "--Card" ∅).
Proof.
  assert (H : ArgumentParser_init flag_params false true None
              = Ok flag_parser) by (vm_compute; reflexivity).
  assert (Hc : "C"%char ≠ Py.dash) by discriminate.
  destruct (long_spelling_lookup flag_params false true None flag_parser ∅
              "C"%char "ard" true H Hc) as [Hfound _].
  assert (Hkey : Py.lower "Card" ∈ all_claimed flag_params)
    by (right; left; reflexivity).
  destruct (Hfound Hkey) as (l1 & k & v & l2 & Hps & Hbefore & Hv & Hcl).
  exists l1, k, v, l2. split; [exact Hps |]. split; [| exact Hcl].
  destruct Hv as [Hv | Hal]; [exact Hv |].
  exfalso.
  assert (Hin : v ∈ (params flag_parser).*2).
  { rewrite Hps, fmap_app, fmap_cons. apply elem_of_app. right. by left. }
  simpl in Hin.
  repeat (apply elem_of_cons in Hin as [-> | Hin]);
    try (simpl in Hal; by apply elem_of_nil in Hal).
  by apply elem_of_nil in Hin.
Defined.

(** ** The exceptions of [process_word] *)

Lemma peel_flags_raises sch fs : ∀ argument d e,
  peel_flags sch fs argument d = Raise e -> e = KeyError.
Proof.
  induction fs as [| f fs IH]; intros argument d e; [done |].
  cbn [peel_flags]. unfold dict_item.
  destruct (dict_get f (params sch)); cbn [mbind result_bind].
  - apply IH.
  - by intros [= <-].
Qed.

Lemma select_raises sch p c e :
  select sch p c = Raise e -> e = UnboundLocalError ∨ e = KeyError.
Proof.
  unfold select. destruct c as [d | td argument d]; [done |].
  destruct (_ && negb (force sch)); [intros [= <-]; by left |].
  destruct (_ && negb (replace sch)); [| done].
  destruct (d !! _default_name sch) as [lst |].
  - by destruct (truthy lst).
  - intros [= <-]. by right.
Qed.

Lemma index_raises s n e : Py.index s n = Raise e -> e = IndexError.
Proof. unfold Py.index. destruct (String.get n s); [done |]. by intros [= <-]. Qed.

Lemma startswith_cons a p c s :
  Py.startswith (String a p) (String c s)
  = if decide (a = c) then Py.startswith p s else false.
Proof.
  unfold Py.startswith. cbn [String.prefix].
  by destruct (ascii_dec a c), (decide (a = c)).
Qed.

(** [classify] raises [IndexError] on three tokens only. *)
Lemma classify_IndexError sch d argument allow_sf :
  classify sch d argument allow_sf = Raise IndexError ->
  argument = EmptyString ∨ argument = "-" ∨ argument = "--".
Proof.
  destruct argument as [| c0 [| c1 [| c2 rest]]]; [by left | | |].
  - destruct (decide (c0 = Py.dash)) as [-> | Hc0]; [right; by left |].
    unfold classify. change (Py.index (String c0 EmptyString) 0) with (Ok c0).
    cbn [mbind result_bind].
    rewrite (bool_decide_eq_false_2 (c0 = Py.dash)) by done.
    cbn [mbind result_bind].
    assert (Py.startswith (String Py.dash (Py.str Py.dash))
              (String c0 EmptyString) = false) as ->.
    { rewrite startswith_cons. by destruct (decide (Py.dash = c0)). }
    cbn [mbind result_bind andb]. done.
  - destruct (decide (c0 = Py.dash)) as [-> | Hc0].
    + destruct (decide (c1 = Py.dash)) as [-> | Hc1]; [right; by right |].
      unfold classify.
      change (Py.index (String Py.dash (String c1 EmptyString)) 0)
        with (Ok Py.dash).
      change (Py.index (String Py.dash (String c1 EmptyString)) 1)
        with (Ok c1).
      cbn [mbind result_bind].
      rewrite (bool_decide_eq_true_2 (Py.dash = Py.dash)) by done.
      cbn [mbind result_bind].
      rewrite (bool_decide_eq_false_2 (c1 = Py.dash)) by done.
      cbn [negb].
      destruct (dict_get _ (params sch)) as [td |].
      * destruct (negb _); [| done]. by destruct (get_argmax td =? 0).
      * destruct (allow_sf && _); [| done].
        match goal with
        | |- context [peel_flags ?a ?b ?c ?e] =>
            pose proof (peel_flags_raises a b c e) as Hp;
            destruct (peel_flags a b c e) as [[arg' d'] | e' |]
        end; cbn [mbind result_bind].
        -- by destruct (bool_decide _).
        -- intros [= ->]. by specialize (Hp _ eq_refl).
        -- done.
    + unfold classify.
      change (Py.index (String c0 (String c1 EmptyString)) 0) with (Ok c0).
      cbn [mbind result_bind].
      rewrite (bool_decide_eq_false_2 (c0 = Py.dash)) by done.
      cbn [mbind result_bind].
      assert (Py.startswith (String Py.dash (Py.str Py.dash))
                (String c0 (String c1 EmptyString)) = false) as ->.
      { rewrite startswith_cons. by rewrite decide_False. }
      cbn [mbind result_bind andb]. done.
  - intros H. exfalso. revert H. unfold classify.
    set (t := String c0 (String c1 (String c2 rest))).
    change (Py.index t 0) with (Ok c0).
    change (Py.index t 1) with (Ok c1).
    change (Py.index t 2) with (Ok c2).
    cbn [mbind result_bind].
    destruct (bool_decide (c0 = Py.dash)); cbn [mbind result_bind].
    + destruct (negb (bool_decide (c1 = Py.dash))).
      * destruct (dict_get _ (params sch)) as [td |].
        -- destruct (negb _); [| done]. by destruct (get_argmax td =? 0).
        -- destruct (allow_sf && _); [| done].
           match goal with
           | |- context [peel_flags ?a ?b ?c ?e] =>
               pose proof (peel_flags_raises a b c e) as Hp;
               destruct (peel_flags a b c e) as [[arg' d'] | e' |]
           end; cbn [mbind result_bind].
           ++ by destruct (bool_decide _).
           ++ intros [= ->]. by specialize (Hp _ eq_refl).
           ++ done.
      * destruct (Py.startswith _ t); cbn [mbind result_bind];
          by destruct (_ && _).
    + destruct (Py.startswith _ t); cbn [mbind result_bind];
        by destruct (_ && _).
Qed.

(** X4.  [process_word] raises [IndexError] on the empty token, on [-] and
    on [--], and on no other token, whatever the parser and the session. *)
Theorem process_word_IndexError
    (sch : ArgumentParser) (p : _Parser) (argument : string)
    (allow_sf : bool) :
  process_word sch p argument allow_sf = Raise IndexError
  ↔ argument = EmptyString ∨ argument = "-" ∨ argument = "--".
Proof.
  split.
  - unfold process_word.
    destruct (classify sch (data p) argument allow_sf) as [c | e |] eqn:Hc;
      cbn [mbind result_bind].
    + intros H. apply select_raises in H as [H | H]; discriminate.
    + intros [= ->]. by apply classify_IndexError in Hc.
    + done.
  - intros [-> | [-> | ->]]; reflexivity.
Qed.

(** ** Unknown flags under [force] *)

Lemma classify_unmatched sch d c body allow_sf :
  c ≠ Py.dash ->
  dict_get (Py.lower (String c body)) (params sch) = None ->
  short_flags sch ∩ Py.set_of (Py.lower (String c body)) = ∅ ->
  classify sch d (String Py.dash (String c body)) allow_sf
  = Ok (Resolved None (String Py.dash (String c body)) d).
Proof.
  intros Hc Hget Hflags. unfold classify.
  rewrite (lstrip_single c body Hc).
  change (Py.index (String Py.dash (String c body)) 0) with (Ok Py.dash).
  change (Py.index (String Py.dash (String c body)) 1) with (Ok c).
  cbn [mbind result_bind].
  rewrite (bool_decide_eq_true_2 (Py.dash = Py.dash)) by done.
  cbn [mbind result_bind].
  rewrite (bool_decide_eq_false_2 (c = Py.dash)) by done.
  cbn [negb]. rewrite Hget, Hflags, elements_empty.
  rewrite (bool_decide_eq_true_2 ([] = [])) by done.
  by rewrite andb_false_r.
Qed.

(** The steps of the loop of [finish] read and write named keys only,
    when every option has a name. *)
Lemma finish_fold_named vs : ∀ d1 d2,
  (∀ v, v ∈ vs -> name v ≠ None) ->
  (∀ k : string, d1 !! Some k = d2 !! Some k) ->
  ∀ k : string,
    fold_left finish_step vs d1 !! Some k
    = fold_left finish_step vs d2 !! Some k.
Proof.
  induction vs as [| v vs IH]; intros d1 d2 Hnames Hagree; [done |].
  simpl. apply IH; [intros u Hu; apply Hnames; by right |].
  intros k. unfold finish_step.
  destruct (name v) as [n |] eqn:Hn; [| by destruct (Hnames v); [left |]].
  simpl. rewrite (Hagree n).
  destruct (decide (field_name n = k)) as [-> | Hne].
  - by rewrite !lookup_insert_eq.
  - rewrite !lookup_insert_ne by congruence.
    destruct (decide (n = k)) as [-> | Hne'].
    + by rewrite !lookup_delete_eq.
    + rewrite !lookup_delete_ne by congruence. apply Hagree.
Qed.

Lemma namespace_eq (r1 r2 : namespace) :
  (∀ k, r1 !! k = r2 !! k) -> r1 = r2.
Proof. apply map_eq. Qed.

(** With a default key, [finish] does not look at what sits under the
    unnamed key. *)
Lemma finish_ignores_unnamed sch p x :
  _default_key sch ≠ None ->
  (∀ v, v ∈ (params sch).*2 -> name v ≠ None) ->
  finish sch (mkSession (view p) (current_dict p) (current_key p)
                        (<[None := x]> (data p)))
  = finish sch p.
Proof.
  intros Hdk Hnames. unfold finish. cbn [data].
  rewrite (bool_decide_eq_false_2 (_default_key sch = None)) by done.
  cbn [mbind result_bind]. f_equal. apply namespace_eq. intros k.
  rewrite !to_namespace_lookup.
  apply finish_fold_named; [done |].
  intros k'. by rewrite lookup_insert_ne.
Qed.

Lemma params_named params0 force0 replace0 dk sch :
  ArgumentParser_init params0 force0 replace0 dk = Ok sch ->
  ∀ v, v ∈ (params sch).*2 -> name v ≠ None.
Proof.
  intros Hsch v Hv.
  pose proof (init_inv _ _ _ _ _ Hsch) as (Hps & _). rewrite Hps in Hv.
  apply list_elem_of_fmap in Hv as [[k v'] [-> Hv]].
  by apply list_elem_of_fmap in Hv as [kv [-> _]].
Qed.

(** Plain words appended under a key of unbounded arity all stay there. *)
Lemma append_all_unbounded sch ws : ∀ p l,
  get_argmax (current_dict p) = -1 ->
  data p !! current_key p = Some (VList l) ->
  append_all sch p ws
  = Ok (mkSession (view p) (current_dict p) (current_key p)
          (<[current_key p := VList (l ++ ws)]> (data p))).
Proof.
  induction ws as [| w ws IH]; intros p l Hmax Hd.
  - simpl. rewrite app_nil_r, insert_id by done. by destruct p.
  - cbn [append_all]. rewrite (append_unbounded _ _ _ l) by done.
    cbn [mbind result_bind].
    rewrite (IH _ (l ++ [w])); cbn [view current_dict current_key data];
      [| done | by rewrite lookup_insert_eq].
    by rewrite insert_insert_eq, <- app_assoc.
Qed.

(** X5.  With [force] and [replace] set, a single-dash token that matches
    no key and holds no short flag is dropped: [process_word] answers
    [True], stores the token nowhere and makes the unnamed key the current
    target, leaving every named accumulator as it was. *)
Theorem forced_unknown_flag_dropped
    (sch : ArgumentParser) (p : _Parser) (c : ascii) (body : string)
    (allow_sf : bool) :
  force sch = true -> replace sch = true -> c ≠ Py.dash ->
  dict_get (Py.lower (String c body)) (params sch) = None ->
  short_flags sch ∩ Py.set_of (Py.lower (String c body)) = ∅ ->
  ∃ p', process_word sch p (String Py.dash (String c body)) allow_sf
        = Ok (true, p')
    ∧ current_key p' = None ∧ current_dict p' = no_option
    ∧ view p' = view p
    ∧ (∀ k : string, data p' !! Some k = data p !! Some k)
    ∧ (_default_name sch = None -> data p' = data p)
    ∧ (_default_name sch ≠ None -> data p' !! None = Some (VList [])).
Proof.
  intros Hforce Hreplace Hc Hget Hflags. unfold process_word.
  rewrite classify_unmatched by done. cbn [mbind result_bind].
  unfold select. cbn [default from_option id no_option name].
  rewrite Hforce, Hreplace. rewrite andb_false_r. cbn [negb].
  rewrite andb_false_r. cbn [mbind result_bind].
  eexists. split; [reflexivity |]. cbn [current_key current_dict view data].
  repeat split.
  - intros k. destruct (bool_decide (None = _default_name sch)); [done |].
    by rewrite lookup_insert_ne.
  - intros Hdn. by rewrite bool_decide_eq_true_2.
  - intros Hdn. rewrite bool_decide_eq_false_2 by done.
    by rewrite lookup_insert_eq.
Qed.

Lemma forced_unknown_flag_dropped_witness :
  let sch := mkParser (params color_parser) true true
                      (valid_names color_parser) (short_flags color_parser)
                      None None in
  ∃ p', process_word sch color_session "-x" true = Ok (true, p')
        ∧ current_key p' = None
        ∧ data p' = data color_session.
Proof.
  intros sch.
  destruct (forced_unknown_flag_dropped sch color_session "x"%char
              EmptyString true)
    as (p' & Hrun & Hkey & _ & _ & _ & Hdata & _);
    [reflexivity | reflexivity | discriminate | reflexivity
    | vm_compute; reflexivity |].
  exists p'. split; [exact Hrun |]. split; [exact Hkey |].
  apply Hdata. reflexivity.
Defined.

(** X6.  With a default key, [force] and [replace], the plain words that
    follow an unknown flag are lost: they pile up under the unnamed key,
    which [finish] does not report, so the result is the one the session
    had before the flag. *)
Theorem forced_unknown_flag_loses_words
    (params0 : dict ArgumentOptions) (dk : option string)
    (sch : ArgumentParser) (p : _Parser) (c : ascii) (body : string)
    (allow_sf : bool) (ws : list string) :
  ArgumentParser_init params0 true true dk = Ok sch ->
  _default_name sch ≠ None ->
  c ≠ Py.dash ->
  dict_get (Py.lower (String c body)) (params sch) = None ->
  short_flags sch ∩ Py.set_of (Py.lower (String c body)) = ∅ ->
  ∃ p1 p2,
    process_word sch p (String Py.dash (String c body)) allow_sf
    = Ok (true, p1)
    ∧ append_all sch p1 ws = Ok p2
    ∧ data p2 !! None = Some (VList ws)
    ∧ (∀ k : string, data p2 !! Some k = data p !! Some k)
    ∧ finish sch p2 = finish sch p.
Proof.
  intros Hsch Hdn Hc Hget Hflags.
  pose proof (init_inv _ _ _ _ _ Hsch) as (_ & Hforce & Hreplace & Hdk & _ & Hno).
  assert (Hdk' : _default_key sch ≠ None).
  { rewrite Hdk. intros ->. by apply Hdn, Hno. }
  unfold process_word.
  rewrite classify_unmatched by done. cbn [mbind result_bind].
  unfold select. cbn [default from_option id no_option name].
  rewrite Hforce, Hreplace. rewrite andb_false_r. cbn [negb].
  rewrite andb_false_r. cbn [mbind result_bind].
  rewrite (bool_decide_eq_false_2 (None = _default_name sch)) by done.
  eexists. eexists. split; [reflexivity |].
  rewrite (append_all_unbounded _ _ _ []);
    cbn [view current_dict current_key data];
    [| reflexivity | by rewrite lookup_insert_eq].
  split; [reflexivity |]. cbn [data]. rewrite insert_insert_eq.
  split; [by rewrite lookup_insert_eq |].
  split; [intros k; by rewrite lookup_insert_ne |].
  unfold finish. cbn [data].
  rewrite (bool_decide_eq_false_2 (_default_key sch = None)) by done.
  cbn [mbind result_bind]. f_equal. apply namespace_eq. intros k.
  rewrite !to_namespace_lookup.
  apply finish_fold_named; [by apply (params_named _ _ _ _ _ Hsch) |].
  intros k'. by rewrite lookup_insert_ne.
Qed.

Lemma forced_unknown_flag_loses_words_witness :
  ∃ p1 p2,
    process_word forced_default_parser forced_session "-x" true
    = Ok (true, p1)
    ∧ append_all forced_default_parser p1 ["lost"] = Ok p2
    ∧ data p2 !! None = Some (VList ["lost"])
    ∧ finish forced_default_parser p2
      = finish forced_default_parser forced_session.
Proof.
  destruct (forced_unknown_flag_loses_words color_params (Some "cl")
              forced_default_parser forced_session "x"%char EmptyString
              true ["lost"])
    as (p1 & p2 & H1 & H2 & H3 & _ & H4);
    [vm_compute; reflexivity | discriminate | discriminate | reflexivity
    | vm_compute; reflexivity |].
  exists p1, p2. repeat split; assumption.
Defined.

(** ** What an option captures *)

Lemma append_all_bounded sch ws : ∀ p l l0 n M,
  current_key p = Some n -> Some n ≠ _default_name sch ->
  get_argmax (current_dict p) = Z.of_nat M ->
  (length l < M)%nat ->
  data p !! Some n = Some (VList l) ->
  data p !! _default_name sch = Some (VList l0) ->
  ∃ p', append_all sch p ws = Ok p'
    ∧ data p' !! Some n = Some (VList (l ++ take (M - length l) ws))
    ∧ data p' !! _default_name sch
      = Some (VList (l0 ++ drop (M - length l) ws))
    ∧ (∀ k, k ≠ Some n -> k ≠ _default_name sch ->
            data p' !! k = data p !! k).
Proof.
  induction ws as [| w ws IH]; intros p l l0 n M Hkey Hne Hmax Hlen Hd Hd0.
  - exists p. rewrite take_nil, drop_nil, !app_nil_r. by repeat split.
  - cbn [append_all]. rewrite (append_list _ _ _ l) by (by rewrite Hkey).
    cbn [mbind result_bind]. rewrite Hmax, length_app. cbn [length].
    assert (Hnot : negb (Z.of_nat M =? -1) = true)
      by (apply negb_true_iff, Z.eqb_neq; lia).
    rewrite Hnot. cbn [andb].
    replace (M - length l)%nat with (S (M - S (length l))) by lia.
    cbn [take drop].
    destruct (Z.leb_spec (Z.of_nat M) (Z.of_nat (length l + 1)))
      as [Hfull | Hroom].
    + (* the accumulator is full: the target goes back to the default *)
      assert (M = S (length l)) as -> by lia.
      replace (S (length l) - S (length l))%nat with 0%nat by lia.
      rewrite take_0, drop_0.
      match goal with
      | |- context [append_all sch ?q ws] =>
          destruct (append_all_default sch ws q l0 eq_refl)
            as (p' & Hp' & _ & Hdef & Hother)
      end.
      { cbn [data]. rewrite Hkey. by rewrite lookup_insert_ne. }
      exists p'. split; [done |]. split; [| split; [done |]].
      * rewrite Hother by done. cbn [data]. rewrite Hkey.
        by rewrite lookup_insert_eq.
      * intros k Hk1 Hk2. rewrite Hother by done. cbn [data].
        rewrite Hkey. by rewrite lookup_insert_ne.
    + (* there is room left *)
      match goal with
      | |- context [append_all sch ?q ws] =>
          destruct (IH q (l ++ [w]) l0 n M)
            as (p' & Hp' & Hn' & Hdef & Hother)
      end; cbn [current_key current_dict data]; try done.
      * rewrite length_app. simpl. lia.
      * rewrite Hkey. by rewrite lookup_insert_eq.
      * rewrite Hkey. by rewrite lookup_insert_ne.
      * exists p'. split; [done |].
        rewrite length_app in Hn', Hdef. cbn [length] in Hn', Hdef.
        replace (M - (length l + 1))%nat with (M - S (length l))%nat
          in Hn', Hdef by lia.
        split; [by rewrite <- app_assoc in Hn' |]. split; [done |].
        intros k Hk1 Hk2. rewrite Hother by done. cbn [data].
        rewrite Hkey. by rewrite lookup_insert_ne.
Qed.

(** The alias of an option with values selects it and, under [replace],
    empties its accumulator. *)
Lemma process_word_alias sch p c body allow_sf v n :
  replace sch = true -> c ≠ Py.dash ->
  dict_get (Py.lower (String c body)) (params sch) = Some v ->
  name v = Some n -> n ≠ Py.lower (String c body) ->
  get_argmax v ≠ 0 -> Some n ≠ _default_name sch ->
  process_word sch p (String Py.dash (String c body)) allow_sf
  = Ok (true, mkSession (view p) v (Some n)
                (<[Some n := VList []]> (data p))).
Proof.
  intros Hreplace Hc Hget Hname Halias Harity Hdefault.
  unfold process_word. rewrite (classify_short _ _ _ _ _ v) by done.
  rewrite Hname.
  rewrite (bool_decide_eq_false_2 (Some n = Some _)) by congruence.
  cbn [negb]. apply Z.eqb_neq in Harity. rewrite Harity.
  cbn [mbind result_bind]. unfold select. cbn [default from_option id].
  rewrite Hname, Hreplace.
  rewrite (bool_decide_eq_false_2 (Some n = None)) by done.
  rewrite andb_false_r. cbn [andb negb mbind result_bind].
  by rewrite (bool_decide_eq_false_2 (Some n = _default_name sch)) by done.
Qed.

(** X7.  Under [replace], an option of arity [M >= 1] spelled by its
    alias and followed by plain words takes the first [M] of them,
    whatever it held before; the words beyond go to the default
    accumulator, after what it held; nothing else changes. *)
Theorem option_captures_its_arity
    (sch : ArgumentParser) (p : _Parser) (c : ascii) (body : string)
    (allow_sf : bool) (v : ArgumentOptions) (n : string) (M : nat)
    (ws l0 : list string) :
  replace sch = true -> c ≠ Py.dash ->
  dict_get (Py.lower (String c body)) (params sch) = Some v ->
  name v = Some n -> n ≠ Py.lower (String c body) ->
  get_argmax v = Z.of_nat M -> (1 <= M)%nat ->
  Some n ≠ _default_name sch ->
  data p !! _default_name sch = Some (VList l0) ->
  ∃ p1 p2,
    process_word sch p (String Py.dash (String c body)) allow_sf
    = Ok (true, p1)
    ∧ append_all sch p1 ws = Ok p2
    ∧ data p2 !! Some n = Some (VList (take M ws))
    ∧ data p2 !! _default_name sch = Some (VList (l0 ++ drop M ws))
    ∧ (∀ k, k ≠ Some n -> k ≠ _default_name sch ->
            data p2 !! k = data p !! k).
Proof.
  intros Hreplace Hc Hget Hname Halias Harity HM Hdefault Hd0.
  rewrite (process_word_alias _ _ _ _ _ v n) by (done || lia).
  match goal with
  | |- context [Ok (true, ?q)] =>
      destruct (append_all_bounded sch ws q [] l0 n M)
        as (p2 & Hp2 & Hn & Hdef & Hother)
  end; cbn [current_key current_dict data length]; try done; try lia;
    try (by rewrite lookup_insert_eq); try (by rewrite lookup_insert_ne).
  eexists. exists p2. split; [reflexivity |]. split; [done |].
  cbn [length] in Hn, Hdef. rewrite Nat.sub_0_r in Hn, Hdef.
  split; [done |]. split; [done |].
  intros k Hk1 Hk2. rewrite Hother by done. cbn [data].
  by rewrite lookup_insert_ne.
Qed.

Lemma option_captures_its_arity_witness :
  ∃ p1 p2,
    process_word (tags_parser true) tags_session "-cl" true = Ok (true, p1)
    ∧ append_all (tags_parser true) p1 ["blue"; "more"] = Ok p2
    ∧ data p2 !! Some "color" = Some (VList ["blue"])
    ∧ data p2 !! None = Some (VList ["text"; "more"]).
Proof.
  destruct (option_captures_its_arity (tags_parser true) tags_session
              "c"%char "l" true
              (mkOptions (Some "color") (Some []) (Some 1)) "color" 1
              ["blue"; "more"] ["text"])
    as (p1 & p2 & H1 & H2 & H3 & H4 & _);
    [reflexivity | discriminate | reflexivity | reflexivity | discriminate
    | reflexivity | lia | discriminate | vm_compute; reflexivity |].
  exists p1, p2. repeat split; assumption.
Defined.

(** X8.  Under [replace], an option without a bound on its arity
    ([argmax] absent or -1), spelled by its alias and followed by plain
    words, takes them all; the other accumulators do not change. *)
Theorem unbounded_option_captures_all
    (sch : ArgumentParser) (p : _Parser) (c : ascii) (body : string)
    (allow_sf : bool) (v : ArgumentOptions) (n : string)
    (ws : list string) :
  replace sch = true -> c ≠ Py.dash ->
  dict_get (Py.lower (String c body)) (params sch) = Some v ->
  name v = Some n -> n ≠ Py.lower (String c body) ->
  get_argmax v = -1 ->
  Some n ≠ _default_name sch ->
  ∃ p1 p2,
    process_word sch p (String Py.dash (String c body)) allow_sf
    = Ok (true, p1)
    ∧ append_all sch p1 ws = Ok p2
    ∧ current_key p2 = Some n
    ∧ data p2 !! Some n = Some (VList ws)
    ∧ (∀ k, k ≠ Some n -> data p2 !! k = data p !! k).
Proof.
  intros Hreplace Hc Hget Hname Halias Harity Hdefault.
  rewrite (process_word_alias _ _ _ _ _ v n) by (done || lia).
  eexists. eexists. split; [reflexivity |].
  rewrite (append_all_unbounded _ _ _ []);
    cbn [view current_dict current_key data];
    [| done | by rewrite lookup_insert_eq].
  split; [reflexivity |]. cbn [current_key data]. split; [done |].
  rewrite insert_insert_eq. split; [by rewrite lookup_insert_eq |].
  intros k Hk. by rewrite lookup_insert_ne.
Qed.

Lemma unbounded_option_captures_all_witness :
  ∃ p1 p2,
    process_word (tags_parser true) tags_session "-t" true = Ok (true, p1)
    ∧ append_all (tags_parser true) p1 ["a"; "b"; "c"] = Ok p2
    ∧ data p2 !! Some "tags" = Some (VList ["a"; "b"; "c"])
    ∧ data p2 !! None = Some (VList ["text"]).
Proof.
  destruct (unbounded_option_captures_all (tags_parser true) tags_session
              "t"%char EmptyString true
              (mkOptions (Some "tags") (Some []) None) "tags"
              ["a"; "b"; "c"])
    as (p1 & p2 & H1 & H2 & _ & H3 & H4);
    [reflexivity | discriminate | reflexivity | reflexivity | discriminate
    | reflexivity | discriminate |].
  exists p1, p2. split; [exact H1 |]. split; [exact H2 |].
  split; [exact H3 |]. rewrite H4 by discriminate. reflexivity.
Defined.

(** ** Without [replace] *)

(** X9.  Without [replace], an option that already has an accumulator is
    not selected again while the default accumulator holds words: the
    token itself, dashes included, is appended to the default accumulator
    and the current target stays; while the default accumulator is empty
    the option is selected and emptied as under [replace]. *)
Theorem repeated_option_without_replace
    (sch : ArgumentParser) (p : _Parser) (c : ascii) (body : string)
    (allow_sf : bool) (v : ArgumentOptions) (n : string) (x : value)
    (l0 : list string) :
  replace sch = false -> c ≠ Py.dash ->
  dict_get (Py.lower (String c body)) (params sch) = Some v ->
  name v = Some n -> n ≠ Py.lower (String c body) ->
  get_argmax v ≠ 0 ->
  Some n ≠ _default_name sch ->
  data p !! Some n = Some x ->
  data p !! _default_name sch = Some (VList l0) ->
  (l0 ≠ [] ->
   process_word sch p (String Py.dash (String c body)) allow_sf
   = Ok (false,
         mkSession (view p) (current_dict p) (current_key p)
           (<[_default_name sch
              := VList (l0 ++ [String Py.dash (String c body)])]>
              (data p))))
  ∧ (l0 = [] ->
     process_word sch p (String Py.dash (String c body)) allow_sf
     = Ok (true, mkSession (view p) v (Some n)
                   (<[Some n := VList []]> (data p)))).
Proof.
  intros Hreplace Hc Hget Hname Halias Harity Hdefault Hn Hd0.
  unfold process_word. rewrite (classify_short _ _ _ _ _ v) by done.
  rewrite Hname.
  rewrite (bool_decide_eq_false_2 (Some n = Some _)) by congruence.
  cbn [negb]. apply Z.eqb_neq in Harity. rewrite Harity.
  cbn [mbind result_bind]. unfold select. cbn [default from_option id].
  rewrite Hname, Hreplace, Hn, Hd0.
  rewrite (bool_decide_eq_false_2 (Some n = None)) by done.
  rewrite (bool_decide_eq_true_2 (is_Some (Some x))) by (by eexists).
  cbn [andb negb mbind result_bind].
  split.
  - intros Hl0. destruct l0 as [| w l0]; [done |]. reflexivity.
  - intros ->. cbn [truthy mbind result_bind].
    by rewrite (bool_decide_eq_false_2 (Some n = _default_name sch)).
Qed.

Lemma repeated_option_without_replace_witness :
  process_word (tags_parser false) tags_session "-cl" true
  = Ok (false,
        mkSession (view tags_session) (current_dict tags_session)
          (current_key tags_session)
          (<[None := VList ["text"; "-cl"]]> (data tags_session))).
Proof.
  apply (proj1 (repeated_option_without_replace (tags_parser false)
                  tags_session "c"%char "l" true
                  (mkOptions (Some "color") (Some []) (Some 1)) "color"
                  (VList ["red"]) ["text"]
                  eq_refl ltac:(discriminate) eq_refl eq_refl
                  ltac:(discriminate) ltac:(discriminate)
                  ltac:(discriminate) eq_refl eq_refl)).
  discriminate.
Defined.

(** ** The lookups of a session never fail *)

Lemma insert_keeps (d : gmap (option string) value) i x k :
  is_Some (d !! k) -> is_Some (<[i := x]> d !! k).
Proof. intros H. rewrite lookup_insert. by case_decide. Qed.

Lemma peel_flags_dom sch fs : ∀ argument d,
  (∀ f, f ∈ fs -> is_Some (dict_get f (params sch))) ->
  ∃ argument' d',
    peel_flags sch fs argument d = Ok (argument', d')
    ∧ ∀ k, is_Some (d !! k) -> is_Some (d' !! k).
Proof.
  induction fs as [| f fs IH]; intros argument d Hkeys.
  - by exists argument, d.
  - destruct (Hkeys f) as [v Hv]; [by left |].
    cbn [peel_flags]. unfold dict_item. rewrite Hv. cbn [mbind result_bind].
    destruct (IH (Py.replace f EmptyString argument)
                 (<[name v := VBool true]> d))
      as (argument' & d' & Hpeel & Hdom).
    { intros g Hg. apply Hkeys. by right. }
    exists argument', d'. split; [done |].
    intros k Hk. apply Hdom. rewrite lookup_insert. by case_decide.
Qed.

Lemma classify_dom sch d argument allow_sf :
  (∀ f, f ∈ short_flags sch -> is_Some (dict_get f (params sch))) ->
  match classify sch d argument allow_sf with
  | Ok c => ∀ k, is_Some (d !! k) -> is_Some (classified_data c !! k)
  | Raise e => e = IndexError
  | Diverge => False
  end.
Proof.
  intros Hflags. unfold classify.
  destruct (Py.index argument 0) as [c0 | e |] eqn:H0;
    [| by apply index_raises in H0 | by apply index_halts in H0].
  cbn [mbind result_bind].
  assert (Hlong :
    match
      (long ← (if Py.startswith (String Py.dash (Py.str Py.dash)) argument
               then c2 ← Py.index argument 2;
                    Ok (negb (bool_decide (c2 = Py.dash)))
               else Ok false);
       if (long : bool)
          && bool_decide (Py.lower (Py.lstrip Py.dash argument)
                          ∈ valid_names sch)
       then Ok (Resolved
                  (Some (default no_option
                           (find_long (Py.lower (Py.lstrip Py.dash argument))
                                      (params sch))))
                  argument d)
       else Ok (Resolved (Some no_option) argument d))
    with
    | Ok c => ∀ k, is_Some (d !! k) -> is_Some (classified_data c !! k)
    | Raise e => e = IndexError
    | Diverge => False
    end).
  { destruct (Py.startswith _ argument).
    - destruct (Py.index argument 2) as [c2 | e |] eqn:H2;
        [| by apply index_raises in H2 | by apply index_halts in H2].
      cbn [mbind result_bind]. by destruct (_ && _).
    - cbn [mbind result_bind]. by destruct (_ && _). }
  destruct (bool_decide (c0 = Py.dash)); [| exact Hlong].
  destruct (Py.index argument 1) as [c1 | e |] eqn:H1;
    [| by apply index_raises in H1 | by apply index_halts in H1].
  cbn [mbind result_bind].
  destruct (negb (bool_decide (c1 = Py.dash))); [| exact Hlong].
  destruct (dict_get _ (params sch)) as [td |].
  - destruct (negb _); [| done].
    destruct (get_argmax td =? 0); [| done].
    intros k Hk. cbn [classified_data]. by apply insert_keeps.
  - destruct (allow_sf && _); [| done].
    match goal with
    | |- context [peel_flags ?a ?b ?c ?e] =>
        destruct (peel_flags_dom a b c e) as (arg' & d' & -> & Hdom)
    end.
    { intros f Hf. apply Hflags.
      by apply elem_of_elements, elem_of_intersection in Hf as [Hf _]. }
    cbn [mbind result_bind].
    destruct (bool_decide (arg' = Py.str Py.dash)); exact Hdom.
Qed.

Lemma selected_ok sch w td d :
  is_Some (d !! _default_name sch) ->
  session_ok sch
    (mkSession w td (name td)
       (if bool_decide (name td = _default_name sch) then d
        else <[name td := VList []]> d)).
Proof.
  intros Hdef. split; cbn [data current_key].
  - destruct (bool_decide _); [done | by apply insert_keeps].
  - destruct (bool_decide _) eqn:Hb.
    + apply bool_decide_eq_true in Hb. by rewrite Hb.
    + rewrite lookup_insert_eq. by eexists.
Qed.

Lemma select_ok sch p c :
  session_ok sch p ->
  (∀ k, is_Some (data p !! k) -> is_Some (classified_data c !! k)) ->
  match select sch p c with
  | Ok (_, p') => session_ok sch p'
  | Raise e => e = UnboundLocalError
  | Diverge => False
  end.
Proof.
  intros [Hdef Hcur] Hdom. unfold select.
  destruct c as [d | td argument d]; cbn [classified_data] in Hdom.
  - split; cbn [data current_key]; by apply Hdom.
  - destruct (_ && negb (force sch)); [done |].
    pose proof (Hdom _ Hdef) as Hdef'.
    destruct (_ && negb (replace sch)); cbn [mbind result_bind];
      [| by apply selected_ok].
    destruct Hdef' as [lst Hlst]. rewrite Hlst.
    destruct (truthy lst); cbn [mbind result_bind];
      [| apply selected_ok; by rewrite Hlst].
    split; cbn [data current_key];
      destruct lst; try (by apply Hdom); apply insert_keeps; by apply Hdom.
Qed.

Lemma process_word_ok sch p argument allow_sf :
  (∀ f, f ∈ short_flags sch -> is_Some (dict_get f (params sch))) ->
  session_ok sch p ->
  match process_word sch p argument allow_sf with
  | Ok (_, p') => session_ok sch p'
  | Raise e => e = IndexError ∨ e = UnboundLocalError
  | Diverge => False
  end.
Proof.
  intros Hflags Hok. unfold process_word.
  pose proof (classify_dom sch (data p) argument allow_sf Hflags) as Hc.
  destruct (classify sch (data p) argument allow_sf) as [c | e |];
    cbn [mbind result_bind]; [| by left | done].
  pose proof (select_ok sch p c Hok Hc) as Hs.
  destruct (select sch p c) as [[b p'] | e |]; [done | by right | done].
Qed.

(** Under the invariant [append] does not raise. *)
Lemma append_ok sch p argument :
  session_ok sch p ->
  ∃ p', append sch p argument = Ok p' ∧ session_ok sch p'.
Proof.
  intros [Hdef [x Hcur]]. unfold append. rewrite Hcur.
  destruct x as [l | b | s |]; try (eexists; split; [done |]; by split).
  eexists. split; [reflexivity |].
  split; cbn [data current_key].
  - rewrite lookup_insert. by case_decide.
  - destruct (_ && _).
    + rewrite lookup_insert. by case_decide.
    + by rewrite lookup_insert_eq.
Qed.

Lemma dispatch_ok sch p pass_ argument :
  (∀ f, f ∈ short_flags sch -> is_Some (dict_get f (params sch))) ->
  session_ok sch p ->
  match dispatch sch p pass_ argument with
  | Ok p' => session_ok sch p'
  | Raise e => e = IndexError ∨ e = UnboundLocalError
  | Diverge => False
  end.
Proof.
  intros Hflags Hok.
  assert (Hfull : ∀ q, session_ok sch q ->
    match ('(_, p2) ← process_word sch q (Py.strip argument) true; Ok p2)
    with
    | Ok p' => session_ok sch p'
    | Raise e => e = IndexError ∨ e = UnboundLocalError
    | Diverge => False
    end).
  { intros q Hq.
    pose proof (process_word_ok sch q (Py.strip argument) true Hflags Hq)
      as H.
    by destruct (process_word sch q (Py.strip argument) true)
      as [[b p2] | e |]. }
  assert (Happend : ∀ q w, session_ok sch q ->
    match append sch q w with
    | Ok p' => session_ok sch p'
    | Raise e => e = IndexError ∨ e = UnboundLocalError
    | Diverge => False
    end).
  { intros q w Hq. by destruct (append_ok sch q w Hq) as (p' & -> & Hp'). }
  unfold dispatch.
  destruct (looks_like_flag pass_ (Py.strip argument)); [| by apply Happend].
  destruct (Py.split Py.equals (Py.strip argument)) as [| key rest];
    [by apply Hfull |].
  destruct (_ && _); [| by apply Hfull].
  pose proof (process_word_ok sch p key false Hflags Hok) as Hkey.
  destruct (process_word sch p key false) as [[selected p1] | e |];
    [| done | done].
  cbn [mbind result_bind]. destruct selected; [by apply Happend |].
  by apply Hfull.
Qed.

Lemma next_token_returns v : ∃ x, next_token v = Ok x.
Proof.
  unfold next_token.
  set (v1 := skip_char Py.space v).
  unfold get_quoted_word at 1.
  destruct (Py.drop (index v1) (buffer v1)) as [| c r]; [by eexists |].
  destruct (decide (c = Py.dquote)); [| by eexists].
  destruct (find_char Py.dquote r); [by eexists |].
  unfold get_quoted_word. cbn [index buffer]. rewrite drop_length.
  by eexists.
Qed.

Lemma parse_loop_ok sch fuel : ∀ p,
  (∀ f, f ∈ short_flags sch -> is_Some (dict_get f (params sch))) ->
  session_ok sch p ->
  match parse_loop fuel sch p with
  | Ok p' => session_ok sch p'
  | Raise e => e = IndexError ∨ e = UnboundLocalError
  | Diverge => True
  end.
Proof.
  induction fuel as [| fuel IH]; intros p Hflags Hok; simpl.
  - by destruct (eof (view p)).
  - destruct (eof (view p)); [done |].
    unfold parse_step.
    destruct (next_token_returns (view p)) as [[[pass_ argument] v] ->].
    cbn [mbind result_bind].
    pose proof (dispatch_ok sch (set_view p v) pass_ argument Hflags) as Hd.
    destruct (dispatch sch (set_view p v) pass_ argument) as [p' | e |];
      cbn [mbind result_bind]; [| by apply Hd | done].
    apply IH; [done |]. by apply Hd.
Qed.

Lemma constructed_flags_are_keys params0 force0 replace0 dk sch :
  ArgumentParser_init params0 force0 replace0 dk = Ok sch ->
  ∀ f, f ∈ short_flags sch -> is_Some (dict_get f (params sch)).
Proof.
  intros Hsch f Hf.
  pose proof (init_inv _ _ _ _ _ Hsch) as (-> & _).
  apply is_Some_dict_get_complete.
  by apply (short_flag_is_key _ _ _ _ _ _ Hsch).
Qed.

Lemma parse_outcomes params0 force0 replace0 dk sch argument :
  ArgumentParser_init params0 force0 replace0 dk = Ok sch ->
  (∃ r, parse sch argument = Ok r)
  ∨ parse sch argument = Raise IndexError
  ∨ parse sch argument = Raise UnboundLocalError.
Proof.
  intros Hsch.
  pose proof (parse_halts sch argument) as Hhalt.
  destruct (Parser_init_inv _ _ _ _ _ argument Hsch) as (cd & Hinit & _).
  pose proof (init_inv _ _ _ _ _ Hsch) as (_ & _ & _ & Hdk & _ & Hno).
  unfold parse in *. rewrite Hinit in *. cbn [mbind result_bind] in *.
  match goal with
  | |- context [parse_loop ?n sch ?q] =>
      pose proof (parse_loop_ok sch n q
                    (constructed_flags_are_keys _ _ _ _ _ Hsch)) as Hloop;
      destruct (parse_loop n sch q) as [p' | e |]
  end; cbn [mbind result_bind] in *; [| | done].
  - destruct Hloop as [[x Hdef] _].
    { split; cbn [data current_key]; by rewrite lookup_singleton_eq. }
    left. unfold finish.
    destruct (bool_decide (_default_key sch = None)) eqn:Hb; [| by eexists].
    apply bool_decide_eq_true in Hb. rewrite <- Hdk, Hb in Hno.
    rewrite (Hno eq_refl) in Hdef. rewrite Hdef. by eexists.
  - right. destruct Hloop as [-> | ->]; [| by left | by right].
    split; cbn [data current_key]; by rewrite lookup_singleton_eq.
Qed.

(** X10.  For a constructed parser, every dictionary lookup of a parse is
    defined: the data of the session always has an entry under the default
    name and one under the current key, so [parse] returns a result or
    raises [IndexError] or [UnboundLocalError], and never [KeyError]. *)
Theorem parse_lookups_defined
    (params0 : dict ArgumentOptions) (force0 replace0 : bool)
    (dk : option string) (sch : ArgumentParser) (argument : string) :
  ArgumentParser_init params0 force0 replace0 dk = Ok sch ->
  (∃ r, parse sch argument = Ok r)
  ∨ parse sch argument = Raise IndexError
  ∨ parse sch argument = Raise UnboundLocalError.
Proof.
  intros Hsch.
  destruct (parse sch argument) as [r | e |] eqn:Hparse.
  - left. by exists r.
  - right.
    destruct (parse_outcomes _ _ _ _ _ argument Hsch) as [[r H] | [H | H]];
      rewrite Hparse in H; [done | by left | by right].
  - by apply parse_halts in Hparse.
Qed.

Lemma parse_lookups_defined_witness :
  (∃ r, parse flag_parser "-htc --card=x -- y" = Ok r)
  ∨ parse flag_parser "-htc --card=x -- y" = Raise IndexError
  ∨ parse flag_parser "-htc --card=x -- y" = Raise UnboundLocalError.
Proof.
  apply (parse_lookups_defined flag_params false true None flag_parser).
  vm_compute. reflexivity.
Defined.

(** ** Under [force] nothing is read unbound *)

Lemma classify_raises sch d argument allow_sf e :
  classify sch d argument allow_sf = Raise e ->
  e = IndexError ∨ e = KeyError.
Proof.
  unfold classify.
  destruct (Py.index argument 0) as [c0 | e0 |] eqn:H0; cbn [mbind result_bind];
    [| intros [= <-]; left; by apply index_raises in H0 | done].
  assert (Hlong : ∀ (k : bool -> result classified),
    (∀ b, k b ≠ Raise e) ->
    (long ← (if Py.startswith (String Py.dash (Py.str Py.dash)) argument
             then c2 ← Py.index argument 2;
                  Ok (negb (bool_decide (c2 = Py.dash)))
             else Ok false);
     k long) = Raise e -> e = IndexError ∨ e = KeyError).
  { intros k Hk. destruct (Py.startswith _ argument).
    - destruct (Py.index argument 2) as [c2 | e2 |] eqn:H2;
        cbn [mbind result_bind].
      + intros H. by apply Hk in H.
      + intros [= <-]. left. by apply index_raises in H2.
      + done.
    - cbn [mbind result_bind]. intros H. by apply Hk in H. }
  destruct (bool_decide (c0 = Py.dash));
    [| apply Hlong; intros b; by destruct (_ && _)].
  destruct (Py.index argument 1) as [c1 | e1 |] eqn:H1;
    cbn [mbind result_bind];
    [| intros [= <-]; left; by apply index_raises in H1 | done].
  destruct (negb (bool_decide (c1 = Py.dash)));
    [| apply Hlong; intros b; by destruct (_ && _)].
  destruct (dict_get _ (params sch)) as [td |].
  - destruct (negb _); [| done]. by destruct (get_argmax td =? 0).
  - destruct (allow_sf && _); [| done].
    match goal with
    | |- context [peel_flags ?a ?b ?c ?g] =>
        pose proof (peel_flags_raises a b c g) as Hp;
        destruct (peel_flags a b c g) as [[arg' d'] | e' |]
    end; cbn [mbind result_bind].
    + by destruct (bool_decide (arg' = Py.str Py.dash)).
    + intros [= <-]. right. by apply Hp.
    + done.
Qed.

Lemma select_forced sch p c e :
  force sch = true -> select sch p c = Raise e -> e = KeyError.
Proof.
  intros Hforce. unfold select. destruct c as [d | td argument d]; [done |].
  rewrite Hforce. cbn [negb]. rewrite andb_false_r.
  destruct (_ && negb (replace sch)); [| done].
  destruct (d !! _default_name sch) as [lst |].
  - by destruct (truthy lst).
  - by intros [= <-].
Qed.

Lemma process_word_forced sch p argument allow_sf e :
  force sch = true ->
  process_word sch p argument allow_sf = Raise e ->
  e = IndexError ∨ e = KeyError.
Proof.
  intros Hforce. unfold process_word.
  destruct (classify sch (data p) argument allow_sf) as [c | e' |] eqn:Hc;
    cbn [mbind result_bind].
  - intros H. right. by apply (select_forced sch p c).
  - intros [= <-]. by apply classify_raises in Hc.
  - done.
Qed.

Lemma append_raises sch p argument e :
  append sch p argument = Raise e -> e = KeyError.
Proof.
  unfold append. destruct (data p !! current_key p) as [[] |]; try done.
  by intros [= <-].
Qed.

Lemma dispatch_forced sch p pass_ argument e :
  force sch = true ->
  dispatch sch p pass_ argument = Raise e ->
  e = IndexError ∨ e = KeyError.
Proof.
  intros Hforce.
  assert (Hfull : ∀ q,
    ('(_, p2) ← process_word sch q (Py.strip argument) true; Ok p2)
    = Raise e -> e = IndexError ∨ e = KeyError).
  { intros q.
    destruct (process_word sch q (Py.strip argument) true)
      as [[b p2] | e' |] eqn:Hp; cbn [mbind result_bind]; [done | | done].
    intros [= <-]. by apply process_word_forced in Hp. }
  assert (Happend : ∀ q w,
    append sch q w = Raise e -> e = IndexError ∨ e = KeyError).
  { intros q w H. right. by apply append_raises in H. }
  unfold dispatch.
  destruct (looks_like_flag pass_ (Py.strip argument)); [| apply Happend].
  destruct (Py.split Py.equals (Py.strip argument)) as [| key rest];
    [apply Hfull |].
  destruct (_ && _); [| apply Hfull].
  destruct (process_word sch p key false) as [[selected p1] | e' |] eqn:Hkey;
    cbn [mbind result_bind].
  - destruct selected; [apply Happend | apply Hfull].
  - intros [= <-]. by apply process_word_forced in Hkey.
  - done.
Qed.

Lemma parse_loop_forced sch fuel e : ∀ p,
  force sch = true ->
  parse_loop fuel sch p = Raise e -> e = IndexError ∨ e = KeyError.
Proof.
  induction fuel as [| fuel IH]; intros p Hforce; simpl.
  - by destruct (eof (view p)).
  - destruct (eof (view p)); [done |].
    unfold parse_step.
    destruct (next_token_returns (view p)) as [[[pass_ argument] v] ->].
    cbn [mbind result_bind].
    destruct (dispatch sch (set_view p v) pass_ argument) as [p' | e' |]
      eqn:Hd; cbn [mbind result_bind].
    + by apply IH.
    + intros [= <-]. by apply dispatch_forced in Hd.
    + done.
Qed.

Lemma parse_forced sch argument e :
  force sch = true ->
  parse sch argument = Raise e -> e = IndexError ∨ e = KeyError.
Proof.
  intros Hforce. unfold parse.
  destruct (Parser_init sch argument) as [p | e' |] eqn:Hinit;
    cbn [mbind result_bind].
  - match goal with
    | |- context [parse_loop ?n sch ?q] =>
        destruct (parse_loop n sch q) as [p' | e' |] eqn:Hloop
    end; cbn [mbind result_bind].
    + unfold finish. destruct (bool_decide _); [| done].
      destruct (data p' !! None); [done |]. intros [= <-]. by right.
    + intros [= <-]. by apply parse_loop_forced in Hloop.
    + done.
  - intros [= <-]. right. unfold Parser_init in Hinit.
    destruct (truthy_str _); [| done]. unfold dict_item in Hinit.
    destruct (dict_get _ (params sch)); [done |]. by injection Hinit as <-.
  - done.
Qed.

(** X11.  A constructed parser with [force] set never reads [lst]
    unbound: [parse] returns a result or raises [IndexError], which
    happens only on a token [process_word] cannot index. *)
Theorem forced_parse_outcomes
    (params0 : dict ArgumentOptions) (replace0 : bool)
    (dk : option string) (sch : ArgumentParser) (argument : string) :
  ArgumentParser_init params0 true replace0 dk = Ok sch ->
  (∃ r, parse sch argument = Ok r)
  ∨ parse sch argument = Raise IndexError.
Proof.
  intros Hsch.
  pose proof (init_inv _ _ _ _ _ Hsch) as (_ & Hforce & _).
  destruct (parse_outcomes _ _ _ _ _ argument Hsch) as [H | [H | H]];
    [by left | by right |].
  apply parse_forced in H as [H | H]; [discriminate.. | done].
Qed.

Lemma forced_parse_outcomes_witness :
  (∃ r, parse forced_default_parser "-x --nope -cl red" = Ok r)
  ∨ parse forced_default_parser "-x --nope -cl red" = Raise IndexError.
Proof.
  apply (forced_parse_outcomes color_params true (Some "cl")
           forced_default_parser).
  vm_compute. reflexivity.
Defined.

(** ** The shape of the result *)

Section Shape.

Variable sch : ArgumentParser.
Hypothesis Hflags :
  ∀ f, f ∈ short_flags sch -> is_Some (dict_get f (params sch)).
Hypothesis Hnames : ∀ v, v ∈ (params sch).*2 -> name v ≠ None.

Lemma data_named_insert_option d v x :
  data_named sch d -> v ∈ (params sch).*2 ->
  data_named sch (<[name v := x]> d).
Proof.
  intros [Hsome Hnone] Hv.
  destruct (name v) as [n |] eqn:Hn; [| by destruct (Hnames v Hv)].
  split.
  - intros k y. rewrite lookup_insert. case_decide.
    + simplify_eq. intros _. by exists v.
    + apply Hsome.
  - intros y. rewrite lookup_insert_ne by done. apply Hnone.
Qed.

Lemma data_named_insert_list d k l :
  data_named sch d -> (k = None ∨ is_Some (d !! k)) ->
  data_named sch (<[k := VList l]> d).
Proof.
  intros [Hsome Hnone] Hk. split.
  - intros k' y. rewrite lookup_insert. case_decide.
    + subst k. intros _. destruct Hk as [| [z Hz]]; [done |]. by eapply Hsome.
    + apply Hsome.
  - intros y. rewrite lookup_insert. case_decide.
    + intros [= <-]. by eexists.
    + apply Hnone.
Qed.

Lemma peel_flags_named fs : ∀ argument d argument' d',
  data_named sch d ->
  peel_flags sch fs argument d = Ok (argument', d') ->
  data_named sch d'.
Proof.
  induction fs as [| f fs IH]; intros argument d argument' d' Hd.
  - by intros [= _ <-].
  - cbn [peel_flags]. unfold dict_item.
    destruct (dict_get f (params sch)) as [v |] eqn:Hv; [| done].
    cbn [mbind result_bind]. apply IH.
    apply data_named_insert_option; [done |]. by eapply dict_get_values.
Qed.

Lemma find_long_known key :
  option_known sch (default no_option (find_long key (params sch))).
Proof.
  pose proof (find_long_first key (params sch)) as H.
  destruct (find_long key (params sch)) as [v |]; [| by left].
  destruct H as (l1 & k & l2 & Heq & _). right.
  cbn [default from_option id]. rewrite Heq.
  rewrite fmap_app, fmap_cons. apply elem_of_app. right. by left.
Qed.

Lemma dict_get_known key :
  option_known sch (default no_option (dict_get key (params sch))).
Proof.
  destruct (dict_get key (params sch)) as [v |] eqn:Hv; [| by left].
  right. by eapply dict_get_values.
Qed.

(** What [classify] hands on: data with known keys and a known option. *)
Lemma classify_named d argument allow_sf c :
  data_named sch d ->
  classify sch d argument allow_sf = Ok c ->
  data_named sch (classified_data c)
  ∧ match c with
    | Returned _ => True
    | Resolved td _ _ => option_known sch (default no_option td)
    end.
Proof.
  intros Hd. unfold classify.
  destruct (Py.index argument 0) as [c0 | |]; [| done..].
  cbn [mbind result_bind].
  assert (Hlong :
    (long ← (if Py.startswith (String Py.dash (Py.str Py.dash)) argument
             then c2 ← Py.index argument 2;
                  Ok (negb (bool_decide (c2 = Py.dash)))
             else Ok false);
     if (long : bool)
        && bool_decide (Py.lower (Py.lstrip Py.dash argument)
                        ∈ valid_names sch)
     then Ok (Resolved
                (Some (default no_option
                         (find_long (Py.lower (Py.lstrip Py.dash argument))
                                    (params sch))))
                argument d)
     else Ok (Resolved (Some no_option) argument d)) = Ok c ->
    data_named sch (classified_data c)
    ∧ match c with
      | Returned _ => True
      | Resolved td _ _ => option_known sch (default no_option td)
      end).
  { assert (Hend : ∀ b : bool,
      (if b && bool_decide (Py.lower (Py.lstrip Py.dash argument)
                            ∈ valid_names sch)
       then Ok (Resolved
                  (Some (default no_option
                           (find_long
                              (Py.lower (Py.lstrip Py.dash argument))
                              (params sch))))
                  argument d)
       else Ok (Resolved (Some no_option) argument d)) = Ok c ->
      data_named sch (classified_data c)
      ∧ match c with
        | Returned _ => True
        | Resolved td _ _ => option_known sch (default no_option td)
        end).
    { intros b. destruct (_ && _); intros [= <-]; (split; [done |]).
      - apply find_long_known.
      - by left. }
    destruct (Py.startswith _ argument).
    - destruct (Py.index argument 2) as [c2 | |]; [| done..].
      cbn [mbind result_bind]. apply Hend.
    - cbn [mbind result_bind]. apply Hend. }
  destruct (bool_decide (c0 = Py.dash)); [| exact Hlong].
  destruct (Py.index argument 1) as [c1 | |]; [| done..].
  cbn [mbind result_bind].
  destruct (negb (bool_decide (c1 = Py.dash))); [| exact Hlong].
  destruct (dict_get _ (params sch)) as [td |] eqn:Htd.
  - destruct (negb _).
    + destruct (get_argmax td =? 0); intros [= <-]; (split; [| try done]).
      * apply data_named_insert_option; [done |]. by eapply dict_get_values.
      * done.
      * right. by eapply dict_get_values.
    + intros [= <-]. split; [done | by left].
  - destruct (allow_sf && _); [| intros [= <-]; split; [done | by left]].
    match goal with
    | |- context [peel_flags ?a ?b ?e ?g] =>
        pose proof (peel_flags_named b e g) as Hp;
        destruct (peel_flags a b e g) as [[arg' d'] | |]
    end; [| done..].
    cbn [mbind result_bind].
    specialize (Hp arg' d' Hd eq_refl).
    destruct (bool_decide (arg' = Py.str Py.dash)); intros [= <-].
    + done.
    + split; [done |]. apply dict_get_known.
Qed.

Lemma select_named p c b p' :
  data_named sch (classified_data c) ->
  match c with
  | Returned _ => True
  | Resolved td _ _ => option_known sch (default no_option td)
  end ->
  select sch p c = Ok (b, p') ->
  data_named sch (data p').
Proof.
  intros Hd Hknown. unfold select.
  destruct c as [d | td argument d]; cbn [classified_data] in Hd.
  - by intros [= _ <-].
  - destruct (_ && negb (force sch)); [done |].
    assert (Hselected :
      data_named sch
        (if bool_decide (name (default no_option td) = _default_name sch)
         then d else <[name (default no_option td) := VList []]> d)).
    { destruct (bool_decide _); [done |].
      destruct Hknown as [-> | Hv].
      - apply data_named_insert_list; [done | by left].
      - by apply data_named_insert_option. }
    destruct (_ && negb (replace sch)); cbn [mbind result_bind];
      [| by intros [= _ <-]].
    destruct (d !! _default_name sch) as [lst |] eqn:Hlst; [| done].
    destruct (truthy lst); cbn [mbind result_bind]; [| by intros [= _ <-]].
    intros [= _ <-]. cbn [data].
    destruct lst; try done.
    apply data_named_insert_list; [done |]. right. by rewrite Hlst.
Qed.

Lemma process_word_named p argument allow_sf b p' :
  data_named sch (data p) ->
  process_word sch p argument allow_sf = Ok (b, p') ->
  data_named sch (data p').
Proof.
  intros Hd. unfold process_word.
  destruct (classify sch (data p) argument allow_sf) as [c | |] eqn:Hc;
    [| done..].
  cbn [mbind result_bind].
  destruct (classify_named _ _ _ _ Hd Hc) as [Hd' Hknown].
  by apply select_named.
Qed.

Lemma append_named p argument p' :
  data_named sch (data p) ->
  append sch p argument = Ok p' ->
  data_named sch (data p').
Proof.
  intros Hd. unfold append.
  destruct (data p !! current_key p) as [x |] eqn:Hx; [| done].
  destruct x; try (by intros [= <-]).
  intros [= <-]. cbn [data].
  apply data_named_insert_list; [done |]. right. by rewrite Hx.
Qed.

Lemma dispatch_named p pass_ argument p' :
  data_named sch (data p) ->
  dispatch sch p pass_ argument = Ok p' ->
  data_named sch (data p').
Proof.
  intros Hd.
  assert (Hfull : ∀ q, data_named sch (data q) ->
    ('(_, p2) ← process_word sch q (Py.strip argument) true; Ok p2) = Ok p' ->
    data_named sch (data p')).
  { intros q Hq.
    destruct (process_word sch q (Py.strip argument) true)
      as [[b p2] | |] eqn:Hp; [| done..].
    cbn [mbind result_bind]. intros [= <-].
    by eapply process_word_named. }
  unfold dispatch.
  destruct (looks_like_flag pass_ (Py.strip argument));
    [| by apply append_named].
  destruct (Py.split Py.equals (Py.strip argument)) as [| key rest];
    [by apply Hfull |].
  destruct (_ && _); [| by apply Hfull].
  destruct (process_word sch p key false) as [[selected p1] | |] eqn:Hkey;
    [| done..].
  cbn [mbind result_bind].
  pose proof (process_word_named _ _ _ _ _ Hd Hkey) as Hd1.
  destruct selected; [by apply append_named | by apply Hfull].
Qed.

Lemma parse_loop_named fuel : ∀ p p',
  data_named sch (data p) ->
  parse_loop fuel sch p = Ok p' ->
  data_named sch (data p').
Proof.
  induction fuel as [| fuel IH]; intros p p' Hd; simpl.
  - destruct (eof (view p)); [by intros [= <-] | done].
  - destruct (eof (view p)); [by intros [= <-] |].
    unfold parse_step.
    destruct (next_token (view p)) as [[[pass_ argument] v] | |]; [| done..].
    cbn [mbind result_bind].
    destruct (dispatch sch (set_view p v) pass_ argument) as [p1 | |]
      eqn:Hdispatch; [| done..].
    cbn [mbind result_bind]. apply IH.
    by apply (dispatch_named (set_view p v) pass_ argument).
Qed.

End Shape.

Lemma finish_value_scalar v found : scalar (finish_value v found).
Proof.
  unfold finish_value.
  destruct (default _ found) as [l | b | s |]; try done.
  by destruct (_ && _).
Qed.

(** A scalar stored under a field stays a scalar under that field. *)
Lemma finish_fold_scalar vs : ∀ d k,
  (∃ x, d !! k = Some x ∧ scalar x) -> field_name <$> k = k ->
  ∃ x, fold_left finish_step vs d !! k = Some x ∧ scalar x.
Proof.
  induction vs as [| u vs IH]; intros d k Hk Hclosed; [done |].
  simpl. apply IH; [| done].
  destruct (decide (option_field u = k)) as [<- | Hne].
  - rewrite finish_step_field. eexists. split; [done |].
    apply finish_value_scalar.
  - rewrite finish_step_other; [done | | done].
    intros ->. apply Hne. unfold option_field. by rewrite Hclosed.
Qed.

Lemma option_field_closed v :
  field_name <$> option_field v = option_field v.
Proof.
  unfold option_field. destruct (name v); simpl; [| done].
  by rewrite field_name_idem.
Qed.

Lemma finish_fold_fields vs : ∀ d v,
  v ∈ vs ->
  ∃ x, fold_left finish_step vs d !! option_field v = Some x ∧ scalar x.
Proof.
  induction vs as [| u vs IH]; intros d v Hv; [by inversion Hv |].
  simpl. apply elem_of_cons in Hv as [-> | Hv]; [| by apply IH].
  apply finish_fold_scalar; [| apply option_field_closed].
  rewrite finish_step_field. eexists. split; [done |].
  apply finish_value_scalar.
Qed.

(** A key the loop of [finish] leaves is a field, or was there and is no
    option's name. *)
Lemma finish_fold_keys vs : ∀ d (k : option string) x,
  fold_left finish_step vs d !! k = Some x ->
  k ∈ option_field <$> vs ∨ (d !! k = Some x ∧ k ∉ name <$> vs).
Proof.
  induction vs as [| u vs IH]; intros d k x Hk.
  - right. split; [done | apply not_elem_of_nil].
  - simpl in Hk. apply IH in Hk as [Hk | [Hk Hnot]].
    + left. rewrite fmap_cons. by right.
    + destruct (decide (option_field u = k)) as [<- | Hne].
      * left. rewrite fmap_cons. by left.
      * unfold finish_step in Hk.
        rewrite lookup_insert_ne in Hk by done.
        apply lookup_delete_Some in Hk as [Hname Hk].
        right. split; [done |]. rewrite fmap_cons.
        apply not_elem_of_cons. by split.
Qed.

(** The session of a parse keeps its invariants up to [finish]. *)
Lemma parse_session params0 force0 replace0 dk sch argument r :
  ArgumentParser_init params0 force0 replace0 dk = Ok sch ->
  parse sch argument = Ok r ->
  ∃ p, finish sch p = Ok r ∧ session_ok sch p ∧ data_named sch (data p).
Proof.
  intros Hsch.
  destruct (Parser_init_inv _ _ _ _ _ argument Hsch)
    as (cd & Hinit & Hyes & _).
  pose proof (init_inv _ _ _ _ _ Hsch) as (_ & _ & _ & _ & _ & Hno).
  pose proof (params_named _ _ _ _ _ Hsch) as Hnames.
  unfold parse. rewrite Hinit. cbn [mbind result_bind].
  match goal with
  | |- context [parse_loop ?n sch ?q] =>
      pose proof (parse_loop_ok sch n q
                    (constructed_flags_are_keys _ _ _ _ _ Hsch)) as Hok;
      pose proof (parse_loop_named sch Hnames n q) as Hnamed;
      destruct (parse_loop n sch q) as [p | |]
  end; [| done..].
  cbn [mbind result_bind]. intros Hfinish. exists p.
  split; [done |]. split.
  - apply Hok. split; cbn [data current_key]; by rewrite lookup_singleton_eq.
  - apply (Hnamed p); [| done]. cbn [data]. split.
    + intros k x Hk. apply lookup_singleton_Some in Hk as [Hdn _].
      destruct (truthy_str dk) eqn:Hdk.
      * destruct (Hyes eq_refl) as (k' & _ & Hget & Hname).
        exists cd. split; [by eapply dict_get_values | congruence].
      * by rewrite (Hno eq_refl) in Hdn.
    + intros x Hx. apply lookup_singleton_Some in Hx as [_ <-]. by eexists.
Qed.

(** X12.  The result of a parse has one field for every option of the
    configuration, holding a boolean, a string or [None], never a list;
    it has a [remainder] field, a string, when no default key is
    configured; and it has no other field. *)
Theorem result_shape
    (params0 : dict ArgumentOptions) (force0 replace0 : bool)
    (dk : option string) (sch : ArgumentParser) (argument : string)
    (r : namespace) :
  ArgumentParser_init params0 force0 replace0 dk = Ok sch ->
  parse sch argument = Ok r ->
  (∀ v, v ∈ (params sch).*2 ->
     ∃ n x, name v = Some n ∧ r !! field_name n = Some x ∧ scalar x)
  ∧ (dk = None -> ∃ s, r !! "remainder" = Some (VStr s))
  ∧ (∀ k x, r !! k = Some x ->
       (dk = None ∧ k = "remainder")
       ∨ ∃ v, v ∈ (params sch).*2 ∧ option_field v = Some k).
Proof.
  intros Hsch Hparse.
  destruct (parse_session _ _ _ _ _ _ _ Hsch Hparse)
    as (p & Hfinish & [[y Hdef] _] & [Hsome Hnone]).
  pose proof (init_inv _ _ _ _ _ Hsch) as (_ & _ & _ & Hdk & _ & Hno).
  pose proof (params_named _ _ _ _ _ Hsch) as Hnames.
  unfold finish in Hfinish. rewrite Hdk in Hfinish.
  assert (Hfields : ∀ d v, v ∈ (params sch).*2 ->
    ∃ n x, name v = Some n
           ∧ to_namespace (fold_left finish_step (params sch).*2 d)
               !! field_name n = Some x ∧ scalar x).
  { intros d v Hv.
    destruct (name v) as [n |] eqn:Hn; [| by destruct (Hnames v Hv)].
    destruct (finish_fold_fields _ d v Hv) as (x & Hx & Hscalar).
    exists n, x. split; [done |]. split; [| done].
    rewrite to_namespace_lookup. unfold option_field in Hx.
    by rewrite Hn in Hx. }
  assert (Hkeys : ∀ d k x,
    to_namespace (fold_left finish_step (params sch).*2 d) !! k = Some x ->
    (∃ v, v ∈ (params sch).*2 ∧ option_field v = Some k)
    ∨ (d !! Some k = Some x ∧ Some k ∉ name <$> (params sch).*2)).
  { intros d k x Hk. rewrite to_namespace_lookup in Hk.
    apply finish_fold_keys in Hk as [Hk | Hk]; [left | by right].
    apply list_elem_of_fmap in Hk as (v & Hv & Hin). by exists v. }
  destruct dk as [k0 |].
  - (* a default key is given *)
    rewrite bool_decide_eq_false_2 in Hfinish by done.
    cbn [mbind result_bind] in Hfinish. injection Hfinish as <-.
    split; [by apply Hfields |]. split; [done |].
    intros k x Hk. right. apply Hkeys in Hk as [Hk | [Hk Hnot]]; [done |].
    exfalso. apply Hnot. destruct (Hsome _ _ Hk) as (v & Hv & Hn).
    apply list_elem_of_fmap. by exists v.
  - (* no default key *)
    rewrite bool_decide_eq_true_2 in Hfinish by done.
    rewrite (Hno eq_refl) in Hdef. rewrite Hdef in Hfinish.
    destruct (Hnone _ Hdef) as [l ->].
    cbn [mbind result_bind] in Hfinish. injection Hfinish as <-.
    split; [by apply Hfields |]. split.
    + intros _. eexists. rewrite to_namespace_lookup.
      apply finish_fold_remainder. by rewrite lookup_insert_eq.
    + intros k x Hk. apply Hkeys in Hk as [Hk | [Hk Hnot]]; [by right |].
      rewrite lookup_insert in Hk. case_decide as Hrem.
      * left. split; [done |]. by injection Hrem as <-.
      * right. exfalso. apply Hnot.
        rewrite lookup_delete_ne in Hk by done.
        destruct (Hsome _ _ Hk) as (v & Hv & Hn).
        apply list_elem_of_fmap. by exists v.
Qed.


Lemma result_shape_witness :
  ∃ r, parse flag_parser "-h --card x" = Ok r
       ∧ (∃ x, r !! "time" = Some x ∧ scalar x)
       ∧ (∃ s, r !! "remainder" = Some (VStr s)).
Proof.
  assert (Hsch : ArgumentParser_init flag_params false true None
                 = Ok flag_parser) by (vm_compute; reflexivity).
  assert (Hs : succeeds (parse flag_parser "-h --card x") = true)
    by (vm_compute; reflexivity).
  destruct (parse flag_parser "-h --card x") as [r | |] eqn:Hr;
    [| discriminate Hs..].
  exists r. split; [reflexivity |].
  destruct (result_shape flag_params false true None flag_parser
              "-h --card x" r Hsch Hr) as (Hfields & Hrem & _).
  split; [| exact (Hrem eq_refl)].
  assert (Hin : mkOptions (Some "time") (Some []) (Some 0)
                ∈ (params flag_parser).*2).
  { vm_compute. right; right; left. }
  destruct (Hfields _ Hin) as (n & x & Hn & Hx & Hscalar).
  injection Hn as <-.
  exists x. split; [exact Hx | exact Hscalar].
Defined.

(** * Properties of the prefix resolver *)

(** ** Strings, the sort and the two loops *)

Lemma append_cons (c : ascii) (a b : string) :
  String c a +:+ b = String c (a +:+ b).
Proof. reflexivity. Qed.

Lemma append_empty (s : string) : s +:+ EmptyString = s.
Proof.
  induction s as [| c s IH]; [done | by rewrite append_cons, IH].
Qed.

Lemma append_assoc (a b c : string) : (a +:+ b) +:+ c = a +:+ b +:+ c.
Proof.
  induction a as [| x a IH]; [done | by rewrite !append_cons, IH].
Qed.

Lemma length_append (a b : string) :
  String.length (a +:+ b) = (String.length a + String.length b)%nat.
Proof.
  induction a as [| x a IH]; [done |].
  rewrite append_cons. cbn [String.length]. by rewrite IH.
Qed.

Lemma startswith_append (p s : string) :
  Py.startswith p s = true <-> ∃ rest, s = p +:+ rest.
Proof.
  unfold Py.startswith. revert s.
  induction p as [| c p IH]; intros s; cbn [String.prefix].
  - split; [| by destruct s]. intros _. by exists s.
  - setoid_rewrite append_cons. destruct s as [| d s].
    + split; [done | by intros [rest H]].
    + cbn [String.prefix]. destruct (ascii_dec c d) as [-> | Hne].
      * rewrite IH. split; intros [rest H]; exists rest; congruence.
      * split; [done |]. intros [rest H]. congruence.
Qed.

Lemma slice_next (p : string) (a : ascii) (r : string) :
  Py.slice (String.length p) (String.length p + 1) (p +:+ String a r)
  = Py.str a.
Proof.
  unfold Py.slice.
  replace (String.length p + 1 - String.length p)%nat with 1%nat by lia.
  induction p as [| c p IH]; [done |].
  rewrite append_cons. cbn [String.length Py.drop]. exact IH.
Qed.

(** The loop of [_resolve_prefix] ends, with the whitespace that follows
    the prefix in the content. *)
Lemma absorb_whitespace_spec (rest prefix : string) (fuel : nat) :
  (String.length rest < fuel)%nat ->
  ∃ ws rest',
    rest = ws +:+ rest' ∧ all_space ws = true ∧ no_leading_space rest'
    ∧ absorb_whitespace fuel (prefix +:+ rest) prefix
      = Ok (prefix +:+ ws).
Proof.
  revert prefix fuel.
  induction rest as [| a rest IH]; intros prefix fuel Hfuel;
    (destruct fuel as [| fuel]; [simpl in Hfuel; lia |]).
  - exists EmptyString, EmptyString. split_and!; try done.
    cbn [absorb_whitespace]. rewrite !append_empty.
    by rewrite Nat.ltb_irrefl.
  - cbn [absorb_whitespace]. rewrite slice_next.
    assert ((String.length prefix
             <? String.length (prefix +:+ String a rest))%nat = true) as ->.
    { apply Nat.ltb_lt. rewrite length_append.
      cbn [String.length]. lia. }
    unfold str_isspace. cbn [Py.str Py.nonempty all_space andb].
    rewrite andb_true_r.
    destruct (Py.isspace a) eqn:Ha.
    + destruct (IH (prefix +:+ Py.str a) fuel) as (ws & rest' & -> & Hws & Hrest & Hrun).
      { simpl in Hfuel. lia. }
      exists (String a ws), rest'. split_and!; [done | | done |].
      * cbn [all_space]. by rewrite Ha.
      * unfold Py.str in *. rewrite !append_assoc in Hrun. exact Hrun.
    + exists EmptyString, (String a rest). split_and!; [done.. |].
      by rewrite append_empty.
Qed.

Lemma insert_by_len_elem (p q : string) (l : list string) :
  q ∈ insert_by_len p l <-> q = p ∨ q ∈ l.
Proof.
  induction l as [| x l IH]; cbn [insert_by_len].
  - rewrite elem_of_cons, elem_of_nil. tauto.
  - destruct (String.length p <? String.length x)%nat.
    + rewrite !elem_of_cons, IH. tauto.
    + rewrite !elem_of_cons. tauto.
Qed.

Lemma sort_by_len_elem (q : string) (l : list string) :
  q ∈ sort_by_len l <-> q ∈ l.
Proof.
  induction l as [| x l IH]; simpl; [done |].
  rewrite insert_by_len_elem, IH, elem_of_cons. tauto.
Qed.

Lemma insert_by_len_sorted (p : string) (l : list string) :
  longest_first l -> longest_first (insert_by_len p l).
Proof.
  induction l as [| x l IH]; simpl; [done |].
  intros [Hx Hl].
  destruct (String.length p <? String.length x)%nat eqn:Hlt.
  - simpl. split; [| by apply IH].
    apply Forall_forall. intros q Hq.
    apply insert_by_len_elem in Hq as [-> | Hq].
    + apply Nat.ltb_lt in Hlt. lia.
    + rewrite Forall_forall in Hx. by apply Hx.
  - simpl. split; [| done].
    apply Nat.ltb_ge in Hlt. constructor; [done |].
    eapply Forall_impl; [exact Hx |]. simpl. intros; lia.
Qed.

Lemma sort_by_len_sorted (l : list string) : longest_first (sort_by_len l).
Proof.
  induction l as [| x l IH]; simpl; [done |].
  by apply insert_by_len_sorted.
Qed.

(** The sort is stable: the prefixes of one length keep their order. *)
Lemma insert_by_len_filter (n : nat) (p : string) (l : list string) :
  longest_first l ->
  filter (fun q => String.length q = n) (insert_by_len p l)
  = filter (fun q => String.length q = n) (p :: l).
Proof.
  induction l as [| x l IH]; simpl; [done |].
  intros [Hx Hl].
  destruct (String.length p <? String.length x)%nat eqn:Hlt; [| done].
  apply Nat.ltb_lt in Hlt.
  rewrite filter_cons, IH by done.
  rewrite !filter_cons.
  destruct (decide (String.length x = n)), (decide (String.length p = n));
    try done.
  lia.
Qed.

Lemma sort_by_len_stable (n : nat) (l : list string) :
  filter (fun q => String.length q = n) (sort_by_len l)
  = filter (fun q => String.length q = n) l.
Proof.
  induction l as [| x l IH]; simpl; [done |].
  rewrite insert_by_len_filter by apply sort_by_len_sorted.
  by rewrite !filter_cons, IH.
Qed.

Lemma try_prefixes_none (lowered_content : string) (l : list string) :
  try_prefixes lowered_content l = Ok None
  <-> ∀ q, q ∈ l -> Py.startswith (Py.strip q) lowered_content = false.
Proof.
  induction l as [| x l IH]; cbn [try_prefixes].
  - split; [| done]. intros _ q Hq. by apply elem_of_nil in Hq.
  - destruct (Py.startswith (Py.strip x) lowered_content) eqn:Hx.
    + split.
      * intros H. exfalso.
        destruct (absorb_whitespace _ _ _); simpl in H; congruence.
      * intros H. rewrite H in Hx by (by left). done.
    + rewrite IH. split.
      * intros H q Hq. apply elem_of_cons in Hq as [-> | Hq]; auto.
      * intros H q Hq. apply H. by right.
Qed.

Lemma try_prefixes_some (lowered_content : string) (l : list string)
    (q : string) :
  longest_first l ->
  q ∈ l -> Py.startswith (Py.strip q) lowered_content = true ->
  ∃ q0 ws rest,
    q0 ∈ l
    ∧ try_prefixes lowered_content l = Ok (Some (Py.strip q0 +:+ ws))
    ∧ lowered_content = Py.strip q0 +:+ ws +:+ rest
    ∧ all_space ws = true ∧ no_leading_space rest
    ∧ ∀ q', q' ∈ l ->
            Py.startswith (Py.strip q') lowered_content = true ->
            (String.length q' <= String.length q0)%nat.
Proof.
  induction l as [| x l IH]; intros Hsorted Hq Hmatch.
  - by apply elem_of_nil in Hq.
  - destruct Hsorted as [Hx Hl]. cbn [try_prefixes].
    destruct (Py.startswith (Py.strip x) lowered_content) eqn:Hsx.
    + apply startswith_append in Hsx as [rest0 ->].
      destruct (absorb_whitespace_spec rest0 (Py.strip x)
                  (S (String.length (Py.strip x +:+ rest0))))
        as (ws & rest & -> & Hws & Hrest & Hrun).
      { rewrite length_append. lia. }
      exists x, ws, rest. rewrite Hrun. split_and!; try done.
      * by left.
      * intros q' Hq' _. apply elem_of_cons in Hq' as [-> | Hq']; [done |].
        rewrite Forall_forall in Hx. by apply Hx.
    + apply elem_of_cons in Hq as [-> | Hq]; [congruence |].
      destruct (IH Hl Hq Hmatch)
        as (q0 & ws & rest & Hq0 & Hrun & Hc & Hws & Hrest & Hmax).
      exists q0, ws, rest. split_and!; try done.
      * by right.
      * intros q' Hq' Hm. apply elem_of_cons in Hq' as [-> | Hq'];
          [congruence | by apply Hmax].
Qed.

Lemma try_prefixes_returns (lowered_content : string) (l : list string) :
  longest_first l ->
  try_prefixes lowered_content l = Ok None
  ∨ ∃ q0 ws rest,
      q0 ∈ l
      ∧ try_prefixes lowered_content l = Ok (Some (Py.strip q0 +:+ ws))
      ∧ lowered_content = Py.strip q0 +:+ ws +:+ rest
      ∧ all_space ws = true ∧ no_leading_space rest
      ∧ ∀ q', q' ∈ l ->
              Py.startswith (Py.strip q') lowered_content = true ->
              (String.length q' <= String.length q0)%nat.
Proof.
  intros Hsorted.
  destruct (decide (Forall (fun q =>
              Py.startswith (Py.strip q) lowered_content = false) l))
    as [Hall | Hsome].
  - left. apply try_prefixes_none. by apply Forall_forall.
  - right. apply not_Forall_Exists in Hsome; [| apply _].
    apply Exists_exists in Hsome as (q & Hq & Hm).
    apply (try_prefixes_some _ _ q); [done.. |].
    unfold compose in Hm.
    destruct (Py.startswith _ _); [done | by destruct Hm].
Qed.

Lemma startswith_lower (p s : string) :
  Py.startswith p (Py.lower s) = true -> Py.lower p = p.
Proof.
  intros H. apply startswith_append in H as [rest H].
  revert s H. induction p as [| c p IH]; intros s H; [done |].
  destruct s as [| d s]; [done |].
  rewrite append_cons in H. cbn [Py.lower] in H.
  injection H as Hc Hs. cbn [Py.lower].
  rewrite <- Hc, lower_char_idem. f_equal. by apply (IH s).
Qed.

(** ** What [_resolve_prefix] returns *)

(** X13.  [_resolve_prefix] answers [None] exactly when the message has no
    content or no prefix, stripped of the whitespace around it, begins the
    content put in lower case. *)
Theorem resolve_prefix_none
    (prefixes : prefixes_value) (content : option string) :
  _resolve_prefix prefixes content = Ok None
  ↔ ∀ c, content = Some c ->
         ∀ q, q ∈ prefix_list prefixes ->
              Py.startswith (Py.strip q) (Py.lower c) = false.
Proof.
  unfold _resolve_prefix. destruct content as [c |].
  - rewrite try_prefixes_none. split.
    + intros H c' [= <-] q Hq. apply H.
      exact (proj2 (sort_by_len_elem _ _) Hq).
    + intros H q Hq. apply (H c eq_refl).
      exact (proj1 (sort_by_len_elem _ _) Hq).
  - split; [intros _ c Hc; discriminate Hc | done].
Qed.

(** X14.  When some stripped prefix begins the content in lower case, the
    loop ends and [_resolve_prefix] returns a stripped prefix of the list
    followed by all the whitespace that comes after it in the content:
    the returned text begins the lower-case content, and what is left of
    the content does not begin with whitespace. *)
Theorem resolve_prefix_match
    (prefixes : prefixes_value) (content q : string) :
  q ∈ prefix_list prefixes ->
  Py.startswith (Py.strip q) (Py.lower content) = true ->
  ∃ q0 ws rest,
    q0 ∈ prefix_list prefixes
    ∧ _resolve_prefix prefixes (Some content)
      = Ok (Some (Py.strip q0 +:+ ws))
    ∧ Py.lower content = Py.strip q0 +:+ ws +:+ rest
    ∧ all_space ws = true ∧ no_leading_space rest.
Proof.
  intros Hq Hmatch. unfold _resolve_prefix.
  destruct (try_prefixes_some (Py.lower content)
              (sort_by_len (prefix_list prefixes)) q)
    as (q0 & ws & rest & Hq0 & Hrun & Hc & Hws & Hrest & _).
  - apply sort_by_len_sorted.
  - exact (proj2 (sort_by_len_elem _ _) Hq).
  - exact Hmatch.
  - exists q0, ws, rest. split_and!; try done.
    exact (proj1 (sort_by_len_elem _ _) Hq0).
Qed.

Lemma resolve_prefix_match_witness :
  _resolve_prefix (ListOfStrings ["nokari"; " n! "]) (Some "N!  Ping")
  = Ok (Some "n!  ")
  ∧ ∃ q0 ws rest,
      q0 ∈ ["nokari"; " n! "]
      ∧ _resolve_prefix (ListOfStrings ["nokari"; " n! "])
          (Some "N!  Ping")
        = Ok (Some (Py.strip q0 +:+ ws))
      ∧ Py.lower "N!  Ping" = Py.strip q0 +:+ ws +:+ rest
      ∧ all_space ws = true ∧ no_leading_space rest.
Proof.
  split; [vm_compute; reflexivity |].
  apply (resolve_prefix_match (ListOfStrings ["nokari"; " n! "])
           "N!  Ping" " n! ").
  - right. left.
  - vm_compute. reflexivity.
Defined.

(** X15.  The prefix [_resolve_prefix] returns comes from a matching
    prefix that is as long as any matching prefix of the list, the length
    being taken before the whitespace around the prefix is stripped: a
    short prefix padded with blanks goes before a longer one. *)
Theorem resolve_prefix_longest
    (prefixes : prefixes_value) (content : option string) (p : string) :
  _resolve_prefix prefixes content = Ok (Some p) ->
  ∃ c q0 ws,
    content = Some c ∧ q0 ∈ prefix_list prefixes
    ∧ Py.startswith (Py.strip q0) (Py.lower c) = true
    ∧ p = Py.strip q0 +:+ ws ∧ all_space ws = true
    ∧ ∀ q', q' ∈ prefix_list prefixes ->
            Py.startswith (Py.strip q') (Py.lower c) = true ->
            (String.length q' <= String.length q0)%nat.
Proof.
  unfold _resolve_prefix. destruct content as [c |]; [| discriminate].
  intros Hrun.
  destruct (try_prefixes_returns (Py.lower c)
              (sort_by_len (prefix_list prefixes)))
    as [Hnone | (q0 & ws & rest & Hq0 & Hsome & Hc & Hws & _ & Hmax)].
  - apply sort_by_len_sorted.
  - rewrite Hnone in Hrun. discriminate Hrun.
  - rewrite Hsome in Hrun. injection Hrun as <-.
    exists c, q0, ws. split_and!; try done.
    + exact (proj1 (sort_by_len_elem _ _) Hq0).
    + apply startswith_append. exists (ws +:+ rest). exact Hc.
    + intros q' Hq' Hm. apply Hmax; [| exact Hm].
      exact (proj2 (sort_by_len_elem _ _) Hq').
Qed.

Lemma resolve_prefix_longest_witness :
  _resolve_prefix (ListOfStrings ["ab"; "a   "]) (Some "ab")
  = Ok (Some "a")
  ∧ ∃ c q0 ws,
    Some "ab" = Some c ∧ q0 ∈ ["ab"; "a   "]
    ∧ Py.startswith (Py.strip q0) (Py.lower c) = true
    ∧ "a" = Py.strip q0 +:+ ws ∧ all_space ws = true
    ∧ ∀ q', q' ∈ ["ab"; "a   "] ->
            Py.startswith (Py.strip q') (Py.lower c) = true ->
            (String.length q' <= String.length q0)%nat.
Proof.
  split; [vm_compute; reflexivity |].
  apply (resolve_prefix_longest (ListOfStrings ["ab"; "a   "])
           (Some "ab") "a").
  vm_compute. reflexivity.
Defined.

(** X16.  The prefixes are compared as they are written, only the content
    is put in lower case: when every prefix of the list holds, between
    the whitespace around it, a character that [str.lower] changes,
    [_resolve_prefix] answers [None] for every message. *)
Theorem resolve_prefix_upper_case
    (prefixes : prefixes_value) (content : option string) :
  (∀ q, q ∈ prefix_list prefixes -> Py.lower (Py.strip q) ≠ Py.strip q) ->
  _resolve_prefix prefixes content = Ok None.
Proof.
  intros Hupper. unfold _resolve_prefix.
  destruct content as [c |]; [| reflexivity].
  apply try_prefixes_none. intros q Hq.
  apply (proj1 (sort_by_len_elem _ _)) in Hq.
  destruct (Py.startswith (Py.strip q) (Py.lower c)) eqn:Hm; [| done].
  exfalso. apply (Hupper q Hq). by apply (startswith_lower _ c).
Qed.

Lemma resolve_prefix_upper_case_witness :
  _resolve_prefix (OneString "N!") (Some "N!ping") = Ok None.
Proof.
  apply (resolve_prefix_upper_case (OneString "N!") (Some "N!ping")).
  intros q Hq. apply elem_of_cons in Hq as [-> | Hq].
  - vm_compute. discriminate.
  - by apply elem_of_nil in Hq.
Defined.
